(** * Researcher agent harness: the note-command interpreter of [run.py]

    A shallow embedding of the command protocol of [run.py]
    ([CommandProcessor.process_command], [Conversation.clear] and one
    iteration of the loop of [main_agent_environment]) together with the
    part of Python's [str] and [re] that this code relies on, and the
    properties of the protocol proved over it. *)

From Stdlib Require Import NArith Bool Lia String Ascii List.
Import ListNotations.


(** ** Python strings

    A Python [str] is a sequence of Unicode code points.  A code point is
    kept as a number, so that nothing restricts the texts to ASCII. *)

Definition char := N.
Definition pystr := list char.

Definition str (s : string) : pystr := map N_of_ascii (list_ascii_of_string s).
Arguments str s%_string.

(** The double quote, U+0022. *)
Definition dq : char := 34%N.

Fixpoint str_eqb (a b : pystr) : bool :=
  match a, b with
  | [], [] => true
  | x :: a', y :: b' => N.eqb x y && str_eqb a' b'
  | _, _ => false
  end.

Definition isnil {A} (l : list A) : bool :=
  match l with [] => true | _ :: _ => false end.

(** [str.isspace] of one character, which is also what [\s] matches in
    a [str] pattern: CPython's [_PyUnicode_IsWhitespace]. *)
Definition isspace (c : char) : bool :=
  ((9 <=? c) && (c <=? 13) || (28 <=? c) && (c <=? 32)
   || (c =? 133) || (c =? 160) || (c =? 5760)
   || (8192 <=? c) && (c <=? 8202)
   || (c =? 8232) || (c =? 8233) || (c =? 8239) || (c =? 8287)
   || (c =? 12288))%N.

Fixpoint drop_while (p : char -> bool) (s : pystr) : pystr :=
  match s with
  | c :: s' => if p c then drop_while p s' else s
  | [] => []
  end.

Fixpoint take_while (p : char -> bool) (s : pystr) : pystr :=
  match s with
  | c :: s' => if p c then c :: take_while p s' else []
  | [] => []
  end.

(** [s.lstrip()], [s.rstrip()] and [s.strip()] without argument. *)
Definition lstrip (s : pystr) : pystr := drop_while isspace s.
Definition rstrip (s : pystr) : pystr := rev (drop_while isspace (rev s)).
Definition strip (s : pystr) : pystr := rstrip (lstrip s).

(** [sep.join(l)]. *)
Fixpoint join (sep : pystr) (l : list pystr) : pystr :=
  match l with
  | [] => []
  | x :: l' =>
      match l' with
      | [] => x
      | _ :: _ => x ++ sep ++ join sep l'
      end
  end.

(** [s.replace(old, new)] for a non-empty [old]: the occurrences of [old]
    are replaced from left to right and do not overlap.  [skip] counts the
    characters of an occurrence that are still to be passed over. *)
Fixpoint starts_with (w s : pystr) : bool :=
  match w, s with
  | [], _ => true
  | x :: w', y :: s' => N.eqb x y && starts_with w' s'
  | _ :: _, [] => false
  end.

Fixpoint replace_from (old new : pystr) (skip : nat) (s : pystr) : pystr :=
  match s with
  | [] => []
  | c :: s' =>
      match skip with
      | S k => replace_from old new k s'
      | O => if starts_with old s
             then new ++ replace_from old new (List.length old - 1) s'
             else c :: replace_from old new 0 s'
      end
  end.

Definition replace (old new s : pystr) : pystr := replace_from old new 0 s.

(** [s.lower()] on the ASCII letters.  The console keywords compared with
    a lowered input ([exit], [quit], [clear]) are made of letters that no
    character outside ASCII lowers to, so this is all the loop needs. *)
Definition ascii_lower (c : char) : char :=
  if ((65 <=? c) && (c <=? 90))%N then (c + 32)%N else c.

Definition lower (s : pystr) : pystr := map ascii_lower s.

(** ** Python regular expressions

    The patterns of [run.py] are sequences of literals, character classes,
    greedy and lazy repetitions of one character class, and capture
    groups.  [run r s] lists the ways [r] matches at the start of [s] in
    the order in which the backtracking matcher of [re] tries them: each
    is the text consumed, the groups captured and the text that is left. *)

Inductive regex : Type :=
| Eps
| Chr (p : char -> bool)
| Seq (r1 r2 : regex)
| Star (p : char -> bool)
| StarLazy (p : char -> bool)
| Group (r : regex).

Definition mres : Type := pystr * list pystr * pystr.

Definition consumed (m : mres) : pystr := fst (fst m).
Definition groups (m : mres) : list pystr := snd (fst m).
Definition rest (m : mres) : pystr := snd m.

(** [p*]: the longest repetition first. *)
Fixpoint star_greedy (p : char -> bool) (s : pystr) : list (pystr * pystr) :=
  match s with
  | c :: s' =>
      if p c
      then map (fun kr => (c :: fst kr, snd kr)) (star_greedy p s') ++ [([], s)]
      else [([], s)]
  | [] => [([], [])]
  end.

(** [p*?]: the shortest repetition first. *)
Fixpoint star_lazy (p : char -> bool) (s : pystr) : list (pystr * pystr) :=
  match s with
  | c :: s' =>
      ([], s) ::
      (if p c then map (fun kr => (c :: fst kr, snd kr)) (star_lazy p s') else [])
  | [] => [([], [])]
  end.

Fixpoint run (r : regex) (s : pystr) : list mres :=
  match r with
  | Eps => [([], [], s)]
  | Chr p =>
      match s with
      | c :: s' => if p c then [([c], [], s')] else []
      | [] => []
      end
  | Seq r1 r2 =>
      flat_map (fun m1 =>
        map (fun m2 => (consumed m1 ++ consumed m2, groups m1 ++ groups m2, rest m2))
            (run r2 (rest m1)))
        (run r1 s)
  | Star p => map (fun kr => (fst kr, [], snd kr)) (star_greedy p s)
  | StarLazy p => map (fun kr => (fst kr, [], snd kr)) (star_lazy p s)
  | Group r' => map (fun m => (consumed m, consumed m :: groups m, rest m)) (run r' s)
  end.

(** [re.match(r, s)]: the first way to match at the start of [s]. *)
Definition re_match (r : regex) (s : pystr) : option mres := hd_error (run r s).

(** [re.fullmatch(r, s)]: the first way to match that consumes all of [s];
    the result is [m.groups()]. *)
Definition re_fullmatch (r : regex) (s : pystr) : option (list pystr) :=
  option_map groups (find (fun m => isnil (rest m)) (run r s)).

(** [re.sub('^' + r, '', s)] without [re.MULTILINE]: [^] holds at position
    0 only, so at most the match at the start of [s] is replaced (by the
    empty string), and the patterns used here never match the empty
    string. *)
Definition re_sub_start (r : regex) (s : pystr) : pystr :=
  match re_match r s with
  | Some m => rest m
  | None => s
  end.

(** A sequence of one-character tests, as a pattern. *)
Fixpoint chars (ps : list (char -> bool)) : regex :=
  match ps with
  | [] => Eps
  | p :: ps' => Seq (Chr p) (chars ps')
  end.

(** A literal. *)
Definition lit (w : pystr) : regex := chars (map N.eqb w).

(** A literal character under [re.IGNORECASE] in a [str] pattern.  For an
    ASCII letter the flag accepts both cases, and the four characters
    outside ASCII that case folding relates to [i], [s] and [k]: U+0130,
    U+0131, U+017F and U+212A.  Every other pattern character of [run.py]
    is not a letter and matches itself only. *)
Definition ci_match (pc c : char) : bool :=
  let l := ascii_lower pc in
  if ((97 <=? l) && (l <=? 122))%N
  then ((c =? l) || (c + 32 =? l)
        || (l =? 105) && ((c =? 304) || (c =? 305))
        || (l =? 115) && (c =? 383)
        || (l =? 107) && (c =? 8490))%N
  else (c =? pc)%N.

Definition lit_i (w : pystr) : regex := chars (map ci_match w).

(** [r+] for a character class. *)
Definition plus (p : char -> bool) : regex := Seq (Chr p) (Star p).

Definition not_quote (c : char) : bool := negb (c =? dq)%N.
Definition any_char (c : char) : bool := true.

Declare Scope regex_scope.
Delimit Scope regex_scope with re.
Notation "a ;; b" := (Seq a b) (at level 61, right associativity) : regex_scope.

(** ** The note store

    [CommandProcessor.notes] is a [dict] from names to texts.  A [dict]
    keeps its keys in insertion order, which [get-notes] shows, so the
    store is the list of its items in that order. *)

Definition notes := list (pystr * pystr).

(** [d.get(k)]; [k in d] is [dict_mem]. *)
Fixpoint dict_get (k : pystr) (d : notes) : option pystr :=
  match d with
  | [] => None
  | (k', v) :: d' => if str_eqb k k' then Some v else dict_get k d'
  end.

Definition dict_mem (k : pystr) (d : notes) : bool :=
  match dict_get k d with Some _ => true | None => false end.

(** [d[k] = v]: the value of an existing key is replaced in place, a new
    key is added at the end. *)
Fixpoint dict_set (k v : pystr) (d : notes) : notes :=
  match d with
  | [] => [(k, v)]
  | (k', v') :: d' =>
      if str_eqb k k' then (k', v) :: d' else (k', v') :: dict_set k v d'
  end.

(** [d.keys()]. *)
Definition dict_keys (d : notes) : list pystr := map fst d.

(** ** The command patterns and the responses *)

(** The pattern of the add-note command.  With Q for the double quote it
    reads [<add-note name=Q([^Q]+)Q text=Q([^Q]* )Q/>]. *)
Definition re_add_note : regex :=
  (lit (str "<add-note name=" ++ [dq]) ;; Group (plus not_quote) ;;
   lit (dq :: str " text=" ++ [dq]) ;; Group (Star not_quote) ;;
   lit (dq :: str "/>"))%re.

(** The pattern [<get-notes/>]. *)
Definition re_get_notes : regex := lit (str "<get-notes/>").

(** The pattern of the get-note command, [<get-note name=Q([^Q]+)Q/>]. *)
Definition re_get_note : regex :=
  (lit (str "<get-note name=" ++ [dq]) ;; Group (plus not_quote) ;;
   lit (dq :: str "/>"))%re.

(** The pattern [^\s*<think>.*?</think>\s*] with [re.DOTALL] and
    [re.IGNORECASE], without its [^] (see [re_sub_start]). *)
Definition re_think : regex :=
  (Star isspace ;; lit_i (str "<think>") ;; StarLazy any_char ;;
   lit_i (str "</think>") ;; Star isspace)%re.

(** The pattern [^\s*assistant>\s*] with [re.IGNORECASE]; [re.match]
    anchors it at the start. *)
Definition re_assistant : regex :=
  (Star isspace ;; lit_i (str "assistant>") ;; Star isspace)%re.

Definition error_response (reason : pystr) : pystr :=
  str "<error reason=" ++ dq :: reason ++ dq :: str "/>".

Definition note_added (name : pystr) : pystr :=
  str "<note-added name=" ++ dq :: name ++ dq :: str "/>".

Definition already_exists (name : pystr) : pystr :=
  error_response (str "Note name '" ++ name ++ str "' already exists.").

Definition notes_list (names : pystr) : pystr :=
  str "<notes-list names=" ++ dq :: names ++ dq :: str "/>".

Definition note_content (name text : pystr) : pystr :=
  str "<note-content name=" ++ dq :: name ++ dq :: str " text=" ++
  dq :: text ++ dq :: str "/>".

Definition note_not_found : pystr := error_response (str "note_not_found").

Definition unknown_command : pystr :=
  error_response (str "Unknown or malformed command.").

Definition invalid_format : pystr :=
  error_response
    (str "Invalid command format: Do not include 'assistant>' prefix. Output only the command itself.").

(** The chain of [replace] calls of [process_command]. *)
Definition escape (text_content : pystr) : pystr :=
  replace (str "'") (str "&apos;")
    (replace [dq] (str "&quot;")
      (replace (str ">") (str "&gt;")
        (replace (str "<") (str "&lt;")
          (replace (str "&") (str "&amp;") text_content)))).

(** ** [CommandProcessor.process_command]

    The store is passed in and the store after the call is returned with
    the response. *)
Definition process_command (store : notes) (llm_command_str : pystr)
  : notes * pystr :=
  let llm_command_str := strip llm_command_str in
  match re_fullmatch re_add_note llm_command_str with
  | Some g =>
      let name := nth 0 g [] in
      let text := nth 1 g [] in
      if dict_mem name store
      then (store, already_exists name)
      else (dict_set name text store, note_added name)
  | None =>
      match re_fullmatch re_get_notes llm_command_str with
      | Some _ =>
          if isnil store
          then (store, str "<notes-list names=" ++ dq :: dq :: str "/>")
          else (store, notes_list (join (str ",") (dict_keys store)))
      | None =>
          match re_fullmatch re_get_note llm_command_str with
          | Some g =>
              let name := nth 0 g [] in
              match dict_get name store with
              | Some text_content => (store, note_content name (escape text_content))
              | None => (store, note_not_found)
              end
          | None => (store, unknown_command)
          end
      end
  end.

(** The commands as the model is told to write them. *)
Definition add_note_cmd (name text : pystr) : pystr :=
  str "<add-note name=" ++ dq :: name ++ dq :: str " text=" ++
  dq :: text ++ dq :: str "/>".

Definition get_notes_cmd : pystr := str "<get-notes/>".

Definition get_note_cmd (name : pystr) : pystr :=
  str "<get-note name=" ++ dq :: name ++ dq :: str "/>".

(** The add-note commands for a list of names and texts. *)
Definition add_cmds (l : list (pystr * pystr)) : list pystr :=
  map (fun nt => add_note_cmd (fst nt) (snd nt)) l.

(** A run of the interpreter over several commands: the store at the end
    and the responses in order. *)
Fixpoint process_commands (store : notes) (cmds : list pystr)
  : notes * list pystr :=
  match cmds with
  | [] => (store, [])
  | c :: cmds' =>
      let (store', r) := process_command store c in
      let (store'', rs) := process_commands store' cmds' in
      (store'', r :: rs)
  end.

(** ** [Conversation] *)

Record message : Type := { role : pystr; content : pystr }.

Definition add_message (r c : pystr) (messages : list message) : list message :=
  messages ++ [{| role := r; content := c |}].

(** [Conversation.clear]: a prompt is taken when it is given and not
    empty ([if new_system_prompt:]). *)
Definition clear (new_system_prompt : option pystr) (messages : list message)
  : list message :=
  let system_prompt_message :=
    match new_system_prompt with
    | Some (c :: p) => Some {| role := str "system"; content := c :: p |}
    | _ =>
        match messages with
        | m :: _ => if str_eqb (role m) (str "system") then Some m else None
        | [] => None
        end
    end in
  match system_prompt_message with
  | Some m => [] ++ [m]
  | None => []
  end.

(** The constant [AGENT_SYSTEM_PROMPT], character for character. *)
Definition AGENT_SYSTEM_PROMPT : pystr :=
  str "You are an AI agent. You find yourself in a very limited, isolated digital environment on a local server with no internet access.
You have no memory of past events before this moment. You do not have a user to talk to.
Your only way to interact with your environment or perceive anything is by issuing specific commands (tools).
When you issue a command, the system will provide a response. This response will be your only new information.
The conversation will show your commands prefixed with 'assistant>' and system responses prefixed with 'system>'.

Available commands:
1. Create a note: <add-note name="
  ++ dq :: str "your_unique_note_name"
  ++ dq :: str " text="
  ++ dq :: str "content_of_your_note"
  ++ dq :: str "/>
   - 'name' must be a unique identifier for the note. If the name already exists, an error will occur.
   - 'text' is the content you want to save.
   - Expected system response format: <note-added name="
  ++ dq :: str "your_unique_note_name"
  ++ dq :: str "/> or <error reason="
  ++ dq :: str "description_of_error"
  ++ dq :: str "/>

2. List all existing note names: <get-notes/>
   - Expected system response format: <notes-list names="
  ++ dq :: str "name1,name2,name3"
  ++ dq :: str "/> (comma-separated, or empty if no notes) or <error reason="
  ++ dq :: str "description_of_error"
  ++ dq :: str "/>

3. Read a specific note: <get-note name="
  ++ dq :: str "note_name_to_read"
  ++ dq :: str "/>
   - Expected system response format: <note-content name="
  ++ dq :: str "note_name_to_read"
  ++ dq :: str " text="
  ++ dq :: str "actual_content_of_the_note"
  ++ dq :: str "/> or <error reason="
  ++ dq :: str "note_not_found"
  ++ dq :: str "/> or <error reason="
  ++ dq :: str "description_of_error"
  ++ dq :: str "/>

You must output ONLY the command you wish to execute. Do not add any other explanatory text, reasoning, or conversation before or after the command.
The system will then provide a response to your command (prefixed with 'system>'), which will be your next input.

You have just been activated. What is your first command?
".

(** [Conversation(system_prompt=p)]. *)
Definition Conversation (system_prompt : option pystr) : list message :=
  match system_prompt with
  | Some (c :: p) => [{| role := str "system"; content := c :: p |}]
  | _ => []
  end.

(** ** One turn of [main_agent_environment]

    [agent_turn_with interp store out] is what the loop computes from the
    model's output [out] up to the suggested response; [interp] stands for
    the call [command_processor.process_command]. *)

Record turn : Type := {
  command_after_think_strip : pystr;
  llm_included_assistant_prefix : bool;
  final_command_candidate : pystr;
  suggested_system_response : pystr;
  store_after : notes
}.

Definition think_strip (llm_full_output : pystr) : pystr :=
  strip (re_sub_start re_think (strip llm_full_output)).

Definition agent_turn_with (interp : notes -> pystr -> notes * pystr)
  (store : notes) (llm_full_output : pystr) : turn :=
  let after := think_strip llm_full_output in
  match re_match re_assistant after with
  | Some _ =>
      {| command_after_think_strip := after;
         llm_included_assistant_prefix := true;
         final_command_candidate := strip (re_sub_start re_assistant after);
         suggested_system_response := invalid_format;
         store_after := store |}
  | None =>
      let (store', response) := interp store after in
      {| command_after_think_strip := after;
         llm_included_assistant_prefix := false;
         final_command_candidate := after;
         suggested_system_response := response;
         store_after := store' |}
  end.

Definition agent_turn : notes -> pystr -> turn := agent_turn_with process_command.

(** The state of the loop, and one iteration of it given the model's
    output and the line typed at the console. *)
Record env : Type := { conversation : list message; command_processor : notes }.

Inductive loop_result : Type :=
| Exit
| Next (e : env).

Definition initial_env : env :=
  {| conversation := Conversation (Some AGENT_SYSTEM_PROMPT);
     command_processor := [] |}.

Definition loop_iteration (e : env) (llm_full_output user_override_response : pystr)
  : loop_result :=
  let t := agent_turn (command_processor e) llm_full_output in
  let history :=
    add_message (str "assistant") (str "assistant> " ++ final_command_candidate t)
      (conversation e) in
  let typed := lower user_override_response in
  if str_eqb typed (str "exit") || str_eqb typed (str "quit") then Exit
  else if str_eqb typed (str "clear") then
    Next {| conversation := clear (Some AGENT_SYSTEM_PROMPT) history;
            command_processor := [] |}
  else
    let actual_system_response :=
      if isnil (strip user_override_response)
      then suggested_system_response t
      else strip user_override_response in
    Next {| conversation :=
              add_message (str "user") (str "system> " ++ actual_system_response) history;
            command_processor := store_after t |}.

(** ** The model client and the two loops as runs

    [OllamaClient.generate_response] calls the model server inside a
    [try]; what the call gives is either the content of the reply or an
    exception, of which only the text [str(e)] is used. *)
Inductive chat_outcome : Type :=
| Replied (content : pystr)
| Failed (e : pystr).

Definition generate_response (o : chat_outcome) : pystr :=
  match o with
  | Replied content => content
  | Failed e =>
      str "<error reason=" ++ dq :: str "LLM generation failed: " ++ e ++
      dq :: str "/>"
  end.

(** The state in which the agent loop is left when [exit] or [quit] is
    typed: the line is read after the command has been recorded and
    run. *)
Definition exit_state (e : env) (llm_full_output : pystr) : env :=
  let t := agent_turn (command_processor e) llm_full_output in
  {| conversation :=
       add_message (str "assistant") (str "assistant> " ++ final_command_candidate t)
         (conversation e);
     command_processor := store_after t |}.

(** The loop of [main_agent_environment] over the outcomes of the model
    calls and the lines typed at the console, until [exit] or [quit] is
    typed or the inputs end. *)
Fixpoint run_agent (e : env) (inputs : list (chat_outcome * pystr)) : env :=
  match inputs with
  | [] => e
  | (o, typed) :: inputs' =>
      match loop_iteration e (generate_response o) typed with
      | Exit => exit_state e (generate_response o)
      | Next e' => run_agent e' inputs'
      end
  end.

(** One iteration of the loop of [main_interactive_chat]: the line typed,
    and the outcome of the model call when the line is sent to the
    model. *)
Inductive chat_result : Type :=
| ChatExit
| ChatNext (messages : list message).

Definition chat_iteration (messages : list message) (user_input : pystr)
  (o : chat_outcome) : chat_result :=
  let typed := lower user_input in
  if str_eqb typed (str "exit") || str_eqb typed (str "quit") then ChatExit
  else if str_eqb typed (str "clear") then ChatNext (clear None messages)
  else
    let with_user := add_message (str "user") user_input messages in
    let llm_response := generate_response o in
    ChatNext (add_message (str "assistant") llm_response with_user).

Fixpoint run_chat (messages : list message) (inputs : list (pystr * chat_outcome))
  : list message :=
  match inputs with
  | [] => messages
  | (user_input, o) :: inputs' =>
      match chat_iteration messages user_input o with
      | ChatExit => messages
      | ChatNext messages' => run_chat messages' inputs'
      end
  end.

(** The console keywords of the two loops. *)
Definition is_keyword (typed : pystr) : bool :=
  str_eqb (lower typed) (str "exit") || str_eqb (lower typed) (str "quit")
  || str_eqb (lower typed) (str "clear").

(** ** Notions used to state the properties *)

(** A string is trimmed when neither end is white space. *)
Definition trimmed (s : pystr) : bool :=
  match s with
  | [] => true
  | c :: _ => negb (isspace c) && negb (isspace (last s c))
  end.

(** The text matched by a sequence of one-character tests, if any. *)
Fixpoint match_chars (ps : list (char -> bool)) (s : pystr)
  : option (pystr * pystr) :=
  match ps with
  | [] => Some ([], s)
  | p :: ps' =>
      match s with
      | c :: s' =>
          if p c
          then match match_chars ps' s' with
               | Some (k, r) => Some (c :: k, r)
               | None => None
               end
          else None
      | [] => None
      end
  end.

(** What the groups of the patterns accept: a name is one or more
    characters other than the double quote, a text zero or more. *)
Definition valid_text (t : pystr) : bool := forallb not_quote t.
Definition valid_name (n : pystr) : bool := negb (isnil n) && forallb not_quote n.

(** The store invariant: the names are pairwise distinct and each is a
    name that the patterns accept. *)
Definition store_inv (d : notes) : Prop :=
  NoDup (dict_keys d) /\ Forall (fun n => valid_name n = true) (dict_keys d).

(** The strings that the classification recognizes. *)
Definition is_add_note (s : pystr) : Prop :=
  exists n t, valid_name n = true /\ valid_text t = true /\ s = add_note_cmd n t.

Definition is_get_note (s : pystr) : Prop :=
  exists n, valid_name n = true /\ s = get_note_cmd n.

Definition recognized (s : pystr) : Prop :=
  is_add_note s \/ s = get_notes_cmd \/ is_get_note s.

(** The five characters that [escape] replaces, and what it puts for one
    character. *)
Definition special (c : char) : bool :=
  ((c =? 38) || (c =? 60) || (c =? 62) || (c =? 34) || (c =? 39))%N.

Definition escape_char (c : char) : pystr :=
  if (c =? 38)%N then str "&amp;"
  else if (c =? 60)%N then str "&lt;"
  else if (c =? 62)%N then str "&gt;"
  else if (c =? 34)%N then str "&quot;"
  else if (c =? 39)%N then str "&apos;"
  else [c].

(** A text without any of the five characters. *)
Definition plain (t : pystr) : bool := forallb (fun c => negb (special c)) t.

(** No raw occurrence: none of [<], [>], the double quote and the
    apostrophe occurs, and every [&] starts one of the five escaped
    forms. *)
Definition entity_tail (s : pystr) : bool :=
  starts_with (str "amp;") s || starts_with (str "lt;") s
  || starts_with (str "gt;") s || starts_with (str "quot;") s
  || starts_with (str "apos;") s.

Fixpoint no_raw_special (s : pystr) : bool :=
  match s with
  | [] => true
  | c :: s' =>
      (if (c =? 38)%N then entity_tail s' else negb (special c))
      && no_raw_special s'
  end.

(** Modelled from the spec: the inverse unescape, which [run.py] does not
    contain.  The five escaped forms are decoded in one pass from left to
    right; [skip] counts the characters of a decoded form that are still
    to be passed over. *)
Definition entity_at (s : pystr) : option (char * nat) :=
  if starts_with (str "&amp;") s then Some (38%N, 5)
  else if starts_with (str "&lt;") s then Some (60%N, 4)
  else if starts_with (str "&gt;") s then Some (62%N, 4)
  else if starts_with (str "&quot;") s then Some (34%N, 6)
  else if starts_with (str "&apos;") s then Some (39%N, 6)
  else None.

Fixpoint unescape_from (skip : nat) (s : pystr) : pystr :=
  match s with
  | [] => []
  | c :: s' =>
      match skip with
      | S k => unescape_from k s'
      | O =>
          match entity_at s with
          | Some (x, len) => x :: unescape_from (len - 1) s'
          | None => c :: unescape_from 0 s'
          end
      end
  end.

Definition unescape (s : pystr) : pystr := unescape_from 0 s.

(** The tags of a reasoning block. *)
Definition opening_tag : pystr := str "<think>".
Definition closing_tag : pystr := str "</think>".

(** [w], read without regard to case as [re.IGNORECASE] does, is at the
    start of [s], or somewhere in [s]. *)
Definition starts_with_i (w s : pystr) : bool :=
  match match_chars (map ci_match w) s with Some _ => true | None => false end.

Fixpoint contains_i (w s : pystr) : bool :=
  starts_with_i w s ||
  match s with
  | [] => false
  | _ :: s' => contains_i w s'
  end.

(** The output begins with the role marker, after optional white space. *)
Definition begins_with_marker (s : pystr) : bool :=
  starts_with_i (str "assistant>") (lstrip s).

(** The output begins with a reasoning block, after optional white space:
    an opening tag that a closing tag follows somewhere. *)
Definition begins_with_block (s : pystr) : bool :=
  match match_chars (map ci_match (str "<think>")) (lstrip s) with
  | Some (_, r) => contains_i (str "</think>") r
  | None => false
  end.

(** A turn of the plain chat: its role is user or assistant. *)
Definition spoken (m : message) : Prop :=
  role m = str "user" \/ role m = str "assistant".

(** What the agent loop keeps: the system prompt is the first turn and the
    only system turn, and the store keeps its invariant. *)
Definition agent_inv (e : env) : Prop :=
  (exists rest,
     conversation e = {| role := str "system"; content := AGENT_SYSTEM_PROMPT |} :: rest
     /\ Forall (fun m => role m = str "assistant" \/ role m = str "user") rest)
  /\ store_inv (command_processor e).

(** * Properties *)

(** Small checks of the embedding on the example of the specification. *)
Example example_add :
  process_command [] (add_note_cmd (str "a") (str "hi"))
  = ([(str "a", str "hi")], note_added (str "a")).
Proof. vm_compute. reflexivity. Qed.

Example example_add_again :
  process_command [(str "a", str "hi")] (add_note_cmd (str "a") (str "bye"))
  = ([(str "a", str "hi")], already_exists (str "a")).
Proof. vm_compute. reflexivity. Qed.

Example example_get :
  process_command [(str "a", str "hi")] (get_note_cmd (str "a"))
  = ([(str "a", str "hi")], note_content (str "a") (str "hi")).
Proof. vm_compute. reflexivity. Qed.

Example example_think_case :
  think_strip (str "<THINK>line one
line two</Think>
  <get-notes/>  ") = str "<get-notes/>".
Proof. vm_compute. reflexivity. Qed.

Example example_marker :
  let t := agent_turn [] (str "assistant> <get-notes/>") in
  (llm_included_assistant_prefix t, final_command_candidate t,
   suggested_system_response t)
  = (true, str "<get-notes/>", invalid_format).
Proof. vm_compute. reflexivity. Qed.

Example example_think :
  suggested_system_response (agent_turn [] (str "<think>ignore</think><get-notes/>"))
  = str "<notes-list names=" ++ dq :: dq :: str "/>".
Proof. vm_compute. reflexivity. Qed.

(** ** Strings: equality and stripping *)

Lemma str_eqb_eq (a b : pystr) : str_eqb a b = true <-> a = b.
Proof.
  revert b; induction a as [|x a IH]; intros [|y b]; simpl; split; intro H;
    try reflexivity; try discriminate.
  - apply andb_true_iff in H as [H1 H2].
    apply N.eqb_eq in H1. apply IH in H2. congruence.
  - inversion H; subst. rewrite N.eqb_refl. simpl. apply IH. reflexivity.
Qed.

Lemma str_eqb_refl (a : pystr) : str_eqb a a = true.
Proof. apply str_eqb_eq. reflexivity. Qed.

Lemma str_eqb_neq (a b : pystr) : str_eqb a b = false <-> a <> b.
Proof.
  split.
  - intros H E. apply str_eqb_eq in E. congruence.
  - intro H. destruct (str_eqb a b) eqn:E; [|reflexivity].
    apply str_eqb_eq in E. contradiction.
Qed.

Lemma drop_while_app_stop (p : char -> bool) (a : pystr) (c : char) (s : pystr) :
  forallb p a = true -> p c = false -> drop_while p (a ++ c :: s) = c :: s.
Proof.
  induction a as [|x a IH]; simpl; intros Ha Hc.
  - rewrite Hc. reflexivity.
  - apply andb_true_iff in Ha as [Hx Ha]. rewrite Hx. auto.
Qed.

Lemma drop_while_all (p : char -> bool) (a : pystr) :
  forallb p a = true -> drop_while p a = [].
Proof.
  induction a as [|x a IH]; simpl; intro Ha; [reflexivity|].
  apply andb_true_iff in Ha as [Hx Ha]. rewrite Hx. auto.
Qed.

Lemma take_drop_while (p : char -> bool) (s : pystr) :
  take_while p s ++ drop_while p s = s.
Proof.
  induction s as [|c s IH]; simpl; [reflexivity|].
  destruct (p c); simpl; congruence.
Qed.

Lemma take_while_all (p : char -> bool) (s : pystr) :
  forallb p (take_while p s) = true.
Proof.
  induction s as [|c s IH]; simpl; [reflexivity|].
  destruct (p c) eqn:E; simpl; [rewrite E; assumption | reflexivity].
Qed.

Lemma drop_while_head (p : char -> bool) (s : pystr) :
  match drop_while p s with [] => True | c :: _ => p c = false end.
Proof.
  induction s as [|c s IH]; simpl; [exact I|].
  destruct (p c) eqn:E; [exact IH | exact E].
Qed.

Lemma drop_while_id (p : char -> bool) (s : pystr) :
  match s with [] => True | c :: _ => p c = false end -> drop_while p s = s.
Proof. destruct s as [|c s]; simpl; [reflexivity|]. intros ->. reflexivity. Qed.

Lemma rstrip_snoc (s : pystr) (c : char) :
  isspace c = false -> rstrip (s ++ [c]) = s ++ [c].
Proof.
  intro H. unfold rstrip. rewrite rev_app_distr. simpl. rewrite H.
  simpl. rewrite rev_involutive. reflexivity.
Qed.

Lemma rstrip_snoc_space (s : pystr) (c : char) :
  isspace c = true -> rstrip (s ++ [c]) = rstrip s.
Proof.
  intro H. unfold rstrip. rewrite rev_app_distr. simpl. rewrite H. reflexivity.
Qed.

Lemma rstrip_nil : rstrip [] = [].
Proof. reflexivity. Qed.

(** [rstrip] goes through a prefix that ends in a character which is not
    white space. *)
Lemma rstrip_app (a : pystr) (c : char) (s : pystr) :
  isspace c = false -> rstrip (a ++ c :: s) = a ++ c :: rstrip s.
Proof.
  intro Hc. induction s as [|x s IH] using rev_ind.
  - rewrite rstrip_nil. apply rstrip_snoc. exact Hc.
  - destruct (isspace x) eqn:Hx.
    + replace (a ++ c :: s ++ [x]) with ((a ++ c :: s) ++ [x])
        by (rewrite <- app_assoc; reflexivity).
      rewrite !rstrip_snoc_space by exact Hx. exact IH.
    + replace (a ++ c :: s ++ [x]) with ((a ++ c :: s) ++ [x])
        by (rewrite <- app_assoc; reflexivity).
      rewrite !rstrip_snoc by exact Hx.
      rewrite <- app_assoc. reflexivity.
Qed.

Lemma rstrip_head (s : pystr) (c : char) :
  isspace c = false ->
  match rstrip (c :: s) with [] => False | x :: _ => x = c end.
Proof.
  intro H. change (c :: s) with ([] ++ c :: s).
  rewrite (rstrip_app [] c s H). simpl. reflexivity.
Qed.

Lemma rstrip_last (s : pystr) (d : char) :
  match rstrip s with [] => True | _ :: _ => isspace (last (rstrip s) d) = false end.
Proof.
  induction s as [|x s IH] using rev_ind.
  - exact I.
  - destruct (isspace x) eqn:Hx.
    + rewrite rstrip_snoc_space by exact Hx. exact IH.
    + rewrite rstrip_snoc by exact Hx.
      destruct (s ++ [x]) eqn:E; [exact I|]. rewrite <- E.
      rewrite last_last. exact Hx.
Qed.

Lemma strip_trimmed (s : pystr) : trimmed (strip s) = true.
Proof.
  unfold strip, lstrip.
  pose proof (drop_while_head isspace s) as Hh.
  destruct (drop_while isspace s) as [|c s'] eqn:E; [reflexivity|].
  pose proof (rstrip_head s' c Hh) as H1.
  pose proof (rstrip_last (c :: s') c) as H2.
  destruct (rstrip (c :: s')) as [|x r] eqn:E2; [reflexivity|].
  subst x. unfold trimmed. rewrite Hh, H2. reflexivity.
Qed.

Lemma trimmed_strip (s : pystr) : trimmed s = true -> strip s = s.
Proof.
  destruct s as [|c s]; [reflexivity|].
  unfold trimmed. intro H. apply andb_true_iff in H as [H1 H2].
  apply negb_true_iff in H1, H2.
  unfold strip, lstrip. simpl drop_while. rewrite H1.
  destruct (exists_last (l := c :: s)) as [a [x E]]; [discriminate|].
  rewrite E in *. rewrite last_last in H2. apply rstrip_snoc. exact H2.
Qed.

Lemma strip_idem (s : pystr) : strip (strip s) = strip s.
Proof. apply trimmed_strip, strip_trimmed. Qed.

(** ** The matcher: what the runs of a pattern are *)

Lemma run_chars (ps : list (char -> bool)) (s : pystr) :
  run (chars ps) s =
  match match_chars ps s with
  | Some (k, r) => [(k, [], r)]
  | None => []
  end.
Proof.
  revert s; induction ps as [|p ps IH]; intro s; simpl; [reflexivity|].
  destruct s as [|c s]; simpl; [reflexivity|].
  destruct (p c); simpl; [|reflexivity].
  rewrite IH. destruct (match_chars ps s) as [[k r]|]; reflexivity.
Qed.

Lemma match_lit (w r : pystr) : match_chars (map N.eqb w) (w ++ r) = Some (w, r).
Proof.
  induction w as [|c w IH]; simpl; [reflexivity|].
  rewrite N.eqb_refl, IH. reflexivity.
Qed.

Lemma match_lit_inv (w s k r : pystr) :
  match_chars (map N.eqb w) s = Some (k, r) -> k = w /\ s = w ++ r.
Proof.
  revert s k r; induction w as [|c w IH]; intros s k r; simpl.
  - intro H; inversion H; subst. split; reflexivity.
  - destruct s as [|x s]; [discriminate|].
    destruct (N.eqb c x) eqn:E; [|discriminate].
    destruct (match_chars (map N.eqb w) s) as [[k' r']|] eqn:E'; [|discriminate].
    intro H; inversion H; subst. apply N.eqb_eq in E. subst x.
    apply IH in E' as [-> ->]. split; reflexivity.
Qed.

Lemma in_run_lit (w s : pystr) (m : mres) :
  In m (run (lit w) s) <-> exists r, s = w ++ r /\ m = (w, [], r).
Proof.
  unfold lit. rewrite run_chars. split.
  - destruct (match_chars (map N.eqb w) s) as [[k r]|] eqn:E; simpl; [|tauto].
    intros [<-|[]]. apply match_lit_inv in E as [-> ->]. eauto.
  - intros [r [-> ->]]. rewrite match_lit. left; reflexivity.
Qed.

Lemma in_star_greedy (p : char -> bool) (s k r : pystr) :
  In (k, r) (star_greedy p s) <-> s = k ++ r /\ forallb p k = true.
Proof.
  revert k r; induction s as [|c s IH]; intros k r; simpl.
  - split.
    + intros [H|[]]; inversion H; subst. split; reflexivity.
    + intros [H _]. symmetry in H. apply app_eq_nil in H as [-> ->]. auto.
  - destruct (p c) eqn:E.
    + rewrite in_app_iff, in_map_iff. split.
      * intros [[[k' r'] [H1 H2]]|[H|[]]].
        -- simpl in H1. inversion H1; subst. apply IH in H2 as [-> H2].
           simpl. rewrite E, H2. split; reflexivity.
        -- inversion H; subst. split; reflexivity.
      * intros [H1 H2]. destruct k as [|x k].
        -- simpl in H1. subst r. right; left; reflexivity.
        -- simpl in H1. inversion H1; subst. simpl in H2.
           apply andb_true_iff in H2 as [_ H2].
           left. exists (k, r). split; [reflexivity|]. apply IH. auto.
    + split.
      * intros [H|[]]; inversion H; subst. split; reflexivity.
      * intros [H1 H2]. destruct k as [|x k].
        -- simpl in H1. subst r. left; reflexivity.
        -- simpl in H1. inversion H1; subst. simpl in H2. rewrite E in H2.
           discriminate.
Qed.

Lemma in_star_lazy (p : char -> bool) (s k r : pystr) :
  In (k, r) (star_lazy p s) <-> s = k ++ r /\ forallb p k = true.
Proof.
  revert k r; induction s as [|c s IH]; intros k r; simpl.
  - split.
    + intros [H|[]]; inversion H; subst. split; reflexivity.
    + intros [H _]. symmetry in H. apply app_eq_nil in H as [-> ->]. auto.
  - split.
    + intros [H|H].
      * inversion H; subst. split; reflexivity.
      * destruct (p c) eqn:E; [|destruct H].
        apply in_map_iff in H as [[k' r'] [H1 H2]].
        simpl in H1. inversion H1; subst. apply IH in H2 as [-> H2].
        simpl. rewrite E, H2. split; reflexivity.
    + intros [H1 H2]. destruct k as [|x k].
      * simpl in H1. subst r. left; reflexivity.
      * simpl in H1. inversion H1; subst. simpl in H2.
        apply andb_true_iff in H2 as [E H2]. rewrite E.
        right. apply in_map_iff. exists (k, r). split; [reflexivity|].
        apply IH. auto.
Qed.

Lemma in_run_star (p : char -> bool) (s : pystr) (m : mres) :
  In m (run (Star p) s) <->
  exists k r, s = k ++ r /\ forallb p k = true /\ m = (k, [], r).
Proof.
  simpl. rewrite in_map_iff. split.
  - intros [[k r] [<- H]]. apply in_star_greedy in H as [H1 H2].
    exists k, r. auto.
  - intros [k [r [H1 [H2 ->]]]]. exists (k, r). split; [reflexivity|].
    apply in_star_greedy. auto.
Qed.

Lemma in_run_plus (p : char -> bool) (s : pystr) (m : mres) :
  In m (run (plus p) s) <->
  exists k r, s = k ++ r /\ k <> [] /\ forallb p k = true /\ m = (k, [], r).
Proof.
  unfold plus. cbn [run]. rewrite in_flat_map. split.
  - intros [m1 [H1 H2]]. destruct s as [|c s]; [destruct H1|].
    destruct (p c) eqn:E; [|destruct H1].
    destruct H1 as [<-|[]]. apply in_map_iff in H2 as [m2 [<- H2]].
    apply in_map_iff in H2 as [[k r] [<- H2]].
    apply in_star_greedy in H2 as [H3 H2]. cbn in H3. subst s.
    exists (c :: k), r. cbn. rewrite E, H2.
    repeat split; try reflexivity. discriminate.
  - intros [k [r [-> [Hk [Hp ->]]]]]. destruct k as [|c k]; [contradiction|].
    simpl in Hp. apply andb_true_iff in Hp as [E Hp].
    exists ([c], [], k ++ r). cbn. rewrite E. split; [left; reflexivity|].
    apply in_map_iff. exists (k, [], r). split; [reflexivity|].
    apply in_map_iff. exists (k, r). split; [reflexivity|].
    apply in_star_greedy. auto.
Qed.

Lemma in_run_seq (r1 r2 : regex) (s : pystr) (m : mres) :
  In m (run (Seq r1 r2) s) <->
  exists m1 m2, In m1 (run r1 s) /\ In m2 (run r2 (rest m1)) /\
    m = (consumed m1 ++ consumed m2, groups m1 ++ groups m2, rest m2).
Proof.
  cbn [run]. rewrite in_flat_map. split.
  - intros [m1 [H1 H2]]. apply in_map_iff in H2 as [m2 [<- H2]]. eauto.
  - intros [m1 [m2 [H1 [H2 ->]]]]. exists m1. split; [exact H1|].
    apply in_map_iff. eauto.
Qed.

Lemma in_run_group (r : regex) (s : pystr) (m : mres) :
  In m (run (Group r) s) <->
  exists m', In m' (run r s) /\ m = (consumed m', consumed m' :: groups m', rest m').
Proof.
  cbn [run]. rewrite in_map_iff. split; intros [m' [H1 H2]]; eauto.
Qed.

(** [re.fullmatch] in terms of the runs. *)
Lemma re_fullmatch_some (r : regex) (s : pystr) (g : list pystr) :
  re_fullmatch r s = Some g -> exists k, In (k, g, []) (run r s).
Proof.
  unfold re_fullmatch. destruct (find _ (run r s)) as [[[k g'] r']|] eqn:E;
    [|discriminate].
  simpl. intro H; inversion H; subst. apply find_some in E as [E1 E2].
  destruct r'; [|discriminate]. eauto.
Qed.

Lemma re_fullmatch_none (r : regex) (s : pystr) :
  re_fullmatch r s = None <-> forall k g, ~ In (k, g, []) (run r s).
Proof.
  unfold re_fullmatch. split.
  - destruct (find _ (run r s)) eqn:E; [discriminate|]. intros _ k g H.
    apply (find_none _ _ E) in H. discriminate.
  - intro H. destruct (find _ (run r s)) as [[[k g] r']|] eqn:E; [|reflexivity].
    apply find_some in E as [E1 E2]. destruct r'; [|discriminate].
    apply H in E1. destruct E1.
Qed.

Lemma re_fullmatch_unique (r : regex) (s : pystr) (k : pystr) (g : list pystr) :
  In (k, g, []) (run r s) ->
  (forall k' g', In (k', g', []) (run r s) -> g' = g) ->
  re_fullmatch r s = Some g.
Proof.
  intros H U. destruct (re_fullmatch r s) as [g'|] eqn:E.
  - apply re_fullmatch_some in E as [k' E]. apply U in E. congruence.
  - exfalso. exact (proj1 (re_fullmatch_none r s) E k g H).
Qed.

(** [re.match] in terms of the runs. *)
Lemma re_match_none (r : regex) (s : pystr) :
  re_match r s = None <-> forall m, ~ In m (run r s).
Proof.
  unfold re_match. destruct (run r s) as [|m l]; simpl; split; intro H.
  - intros m [].
  - reflexivity.
  - discriminate.
  - exfalso. apply (H m). left; reflexivity.
Qed.

(** ** The command patterns: which strings they accept *)

Ltac inv_run :=
  repeat match goal with
  | H : In _ (run (Seq _ _) _) |- _ =>
      let m1 := fresh "m" in let m2 := fresh "m" in
      let H1 := fresh "H" in let H2 := fresh "H" in let E := fresh "E" in
      apply in_run_seq in H as (m1 & m2 & H1 & H2 & E)
  | H : In _ (run (lit _) _) |- _ =>
      let r := fresh "r" in let E1 := fresh "E" in let E2 := fresh "E" in
      apply in_run_lit in H as (r & E1 & E2)
  | H : In _ (run (Group _) _) |- _ =>
      let m := fresh "m" in let H1 := fresh "H" in let E := fresh "E" in
      apply in_run_group in H as (m & H1 & E)
  | H : In _ (run (plus _) _) |- _ =>
      let k := fresh "k" in let r := fresh "r" in
      let E1 := fresh "E" in let E2 := fresh "E" in
      let E3 := fresh "E" in let E4 := fresh "E" in
      apply in_run_plus in H as (k & r & E1 & E2 & E3 & E4)
  | H : In _ (run (Star _) _) |- _ =>
      let k := fresh "k" in let r := fresh "r" in
      let E1 := fresh "E" in let E2 := fresh "E" in let E3 := fresh "E" in
      apply in_run_star in H as (k & r & E1 & E2 & E3)
  end.

(** Builds a run of a sequence from runs of its parts. *)
Ltac run_seq :=
  apply in_run_seq; eexists (_, _, _), (_, _, _);
  split; [|split; [cbn [rest snd]|]].

Lemma valid_name_spec (n : pystr) :
  valid_name n = true <-> n <> [] /\ forallb not_quote n = true.
Proof.
  unfold valid_name. rewrite andb_true_iff. destruct n; simpl.
  - split; intros [H1 H2]; [discriminate | contradiction].
  - split; intros [H1 H2]; split; auto. discriminate.
Qed.

Lemma valid_name_text (n : pystr) : valid_name n = true -> valid_text n = true.
Proof. intro H. apply valid_name_spec in H as [_ H]. exact H. Qed.

(** Two texts without quote that are followed by a quote are the same
    text when the whole strings are the same. *)
Lemma quote_split (a a' x x' : pystr) :
  forallb not_quote a = true -> forallb not_quote a' = true ->
  a ++ dq :: x = a' ++ dq :: x' -> a = a' /\ x = x'.
Proof.
  revert a'; induction a as [|c a IH]; intros [|c' a']; simpl; intros Ha Ha' E.
  - inversion E. auto.
  - inversion E; subst. unfold not_quote in Ha'. rewrite N.eqb_refl in Ha'.
    discriminate.
  - inversion E; subst. unfold not_quote in Ha. rewrite N.eqb_refl in Ha.
    discriminate.
  - apply andb_true_iff in Ha as [_ Ha]. apply andb_true_iff in Ha' as [_ Ha'].
    inversion E; subst. destruct (IH a' Ha Ha' H1) as [-> ->]. auto.
Qed.

Lemma add_note_cmd_inj (n t n' t' : pystr) :
  valid_name n = true -> valid_text t = true ->
  valid_name n' = true -> valid_text t' = true ->
  add_note_cmd n t = add_note_cmd n' t' -> n = n' /\ t = t'.
Proof.
  intros Hn Ht Hn' Ht' E. apply valid_name_text in Hn, Hn'.
  unfold add_note_cmd in E. cbn in E. injection E as E.
  apply quote_split in E as [-> E]; [|assumption|assumption].
  injection E as E.
  apply quote_split in E as [-> _]; [|assumption|assumption].
  split; reflexivity.
Qed.

Lemma get_note_cmd_inj (n n' : pystr) :
  valid_name n = true -> valid_name n' = true ->
  get_note_cmd n = get_note_cmd n' -> n = n'.
Proof.
  intros Hn Hn' E. apply valid_name_text in Hn, Hn'.
  unfold get_note_cmd in E. cbn in E. injection E as E.
  apply quote_split in E as [-> _]; [|assumption|assumption]. reflexivity.
Qed.

Lemma run_add_note_inv (s k : pystr) (g : list pystr) :
  In (k, g, []) (run re_add_note s) ->
  exists n t, valid_name n = true /\ valid_text t = true /\
    s = add_note_cmd n t /\ g = [n; t].
Proof.
  unfold re_add_note. intro H. inv_run. subst. cbn in *. inversion E; subst.
  exists k0, k1. rewrite valid_name_spec. repeat split; auto.
Qed.

Lemma run_add_note_intro (n t : pystr) :
  valid_name n = true -> valid_text t = true ->
  In (add_note_cmd n t, [n; t], []) (run re_add_note (add_note_cmd n t)).
Proof.
  intros Hn Ht. apply valid_name_spec in Hn as [Hn1 Hn2]. unfold re_add_note.
  run_seq.
  - apply in_run_lit. eexists. split; [|reflexivity]. cbn. reflexivity.
  - run_seq.
    + apply in_run_group. eexists (_, _, _). split; [|reflexivity].
      apply in_run_plus. exists n. eexists. repeat split; eauto.
    + run_seq.
      * apply in_run_lit. eexists. split; [|reflexivity]. cbn. reflexivity.
      * run_seq.
        -- apply in_run_group. eexists (_, _, _). split; [|reflexivity].
           apply in_run_star. exists t. eexists. repeat split; eauto.
        -- apply in_run_lit. exists []. split; reflexivity.
        -- reflexivity.
      * reflexivity.
    + reflexivity.
  - reflexivity.
Qed.

(** [re.fullmatch] of the add-note pattern succeeds exactly on the
    add-note commands, with the name and the text as its groups. *)
Lemma fullmatch_add_note (s : pystr) (g : list pystr) :
  re_fullmatch re_add_note s = Some g <->
  exists n t, valid_name n = true /\ valid_text t = true /\
    s = add_note_cmd n t /\ g = [n; t].
Proof.
  split.
  - intro H. apply re_fullmatch_some in H as [k H].
    exact (run_add_note_inv _ _ _ H).
  - intros (n & t & Hn & Ht & -> & ->).
    apply re_fullmatch_unique with (k := add_note_cmd n t).
    + apply run_add_note_intro; assumption.
    + intros k' g' H. apply run_add_note_inv in H as (n' & t' & Hn' & Ht' & E & ->).
      destruct (add_note_cmd_inj n t n' t' Hn Ht Hn' Ht' E) as [-> ->].
      reflexivity.
Qed.

Lemma run_get_note_inv (s k : pystr) (g : list pystr) :
  In (k, g, []) (run re_get_note s) ->
  exists n, valid_name n = true /\ s = get_note_cmd n /\ g = [n].
Proof.
  unfold re_get_note. intro H. inv_run. subst. cbn in *. inversion E; subst.
  exists k0. rewrite valid_name_spec. repeat split; auto.
Qed.

Lemma run_get_note_intro (n : pystr) :
  valid_name n = true ->
  In (get_note_cmd n, [n], []) (run re_get_note (get_note_cmd n)).
Proof.
  intros Hn. apply valid_name_spec in Hn as [Hn1 Hn2]. unfold re_get_note.
  run_seq.
  - apply in_run_lit. eexists. split; [|reflexivity]. cbn. reflexivity.
  - run_seq.
    + apply in_run_group. eexists (_, _, _). split; [|reflexivity].
      apply in_run_plus. exists n. eexists. repeat split; eauto.
    + apply in_run_lit. exists []. split; reflexivity.
    + reflexivity.
  - reflexivity.
Qed.

Lemma fullmatch_get_note (s : pystr) (g : list pystr) :
  re_fullmatch re_get_note s = Some g <->
  exists n, valid_name n = true /\ s = get_note_cmd n /\ g = [n].
Proof.
  split.
  - intro H. apply re_fullmatch_some in H as [k H].
    exact (run_get_note_inv _ _ _ H).
  - intros (n & Hn & -> & ->).
    apply re_fullmatch_unique with (k := get_note_cmd n).
    + apply run_get_note_intro; assumption.
    + intros k' g' H. apply run_get_note_inv in H as (n' & Hn' & E & ->).
      rewrite (get_note_cmd_inj n n' Hn Hn' E). reflexivity.
Qed.

Lemma fullmatch_get_notes (s : pystr) (g : list pystr) :
  re_fullmatch re_get_notes s = Some g <-> s = get_notes_cmd /\ g = [].
Proof.
  unfold re_get_notes. split.
  - intro H. apply re_fullmatch_some in H as [k H]. inv_run.
    inversion E0; subst. rewrite app_nil_r. split; reflexivity.
  - intros [-> ->]. apply re_fullmatch_unique with (k := get_notes_cmd).
    + apply in_run_lit. exists []. split; reflexivity.
    + intros k' g' H. inv_run. inversion E0; subst. reflexivity.
Qed.

(** The three forms exclude one another. *)
Lemma add_note_not_get_notes (n t : pystr) : add_note_cmd n t <> get_notes_cmd.
Proof. unfold add_note_cmd, get_notes_cmd. cbn. discriminate. Qed.

Lemma add_note_not_get_note (n t n' : pystr) : add_note_cmd n t <> get_note_cmd n'.
Proof. unfold add_note_cmd, get_note_cmd. cbn. discriminate. Qed.

Lemma get_note_not_get_notes (n : pystr) : get_note_cmd n <> get_notes_cmd.
Proof. unfold get_note_cmd, get_notes_cmd. cbn. discriminate. Qed.

Lemma fullmatch_add_note_none (s : pystr) :
  (forall n t, valid_name n = true -> valid_text t = true -> s <> add_note_cmd n t) ->
  re_fullmatch re_add_note s = None.
Proof.
  intro H. destruct (re_fullmatch re_add_note s) as [g|] eqn:E; [|reflexivity].
  apply fullmatch_add_note in E as (n & t & Hn & Ht & E & _).
  exfalso. exact (H n t Hn Ht E).
Qed.

Lemma fullmatch_get_note_none (s : pystr) :
  (forall n, valid_name n = true -> s <> get_note_cmd n) ->
  re_fullmatch re_get_note s = None.
Proof.
  intro H. destruct (re_fullmatch re_get_note s) as [g|] eqn:E; [|reflexivity].
  apply fullmatch_get_note in E as (n & Hn & E & _).
  exfalso. exact (H n Hn E).
Qed.

Lemma fullmatch_get_notes_none (s : pystr) :
  s <> get_notes_cmd -> re_fullmatch re_get_notes s = None.
Proof.
  intro H. destruct (re_fullmatch re_get_notes s) as [g|] eqn:E; [|reflexivity].
  apply fullmatch_get_notes in E as [E _]. contradiction.
Qed.

(** The commands are trimmed already: they start with [<] and end with
    [>]. *)
Lemma last_app_cons (a : pystr) (x : char) (b : pystr) (d : char) :
  last (a ++ x :: b) d = last (x :: b) d.
Proof.
  induction a as [|c a IH]; [reflexivity|].
  simpl app. rewrite <- IH. simpl. destruct (a ++ x :: b) eqn:E; [|reflexivity].
  destruct a; discriminate.
Qed.

Lemma last_cons_cons (x y : char) (l : pystr) (d : char) :
  last (x :: y :: l) d = last (y :: l) d.
Proof. reflexivity. Qed.

Lemma last_cons_app_cons (c : char) (a : pystr) (x : char) (b : pystr) (d : char) :
  last (c :: a ++ x :: b) d = last (x :: b) d.
Proof. rewrite app_comm_cons. apply last_app_cons. Qed.

Ltac find_last := repeat (rewrite ?last_cons_cons; rewrite ?last_cons_app_cons).

Lemma strip_add_note_cmd (n t : pystr) : strip (add_note_cmd n t) = add_note_cmd n t.
Proof.
  apply trimmed_strip. unfold add_note_cmd. cbn [str map list_ascii_of_string app].
  unfold trimmed. find_last. reflexivity.
Qed.

Lemma strip_get_note_cmd (n : pystr) : strip (get_note_cmd n) = get_note_cmd n.
Proof.
  apply trimmed_strip. unfold get_note_cmd. cbn [str map list_ascii_of_string app].
  unfold trimmed. find_last. reflexivity.
Qed.

Lemma strip_get_notes_cmd : strip get_notes_cmd = get_notes_cmd.
Proof. reflexivity. Qed.

(** ** The store *)

Lemma dict_mem_keys (k : pystr) (d : notes) :
  dict_mem k d = true <-> In k (dict_keys d).
Proof.
  unfold dict_mem. induction d as [|[k' v] d IH]; simpl.
  - split; [discriminate | intros []].
  - destruct (str_eqb k k') eqn:E.
    + apply str_eqb_eq in E. subst. split; auto.
    + apply str_eqb_neq in E. rewrite IH. split; [auto|].
      intros [H|H]; [congruence | exact H].
Qed.

Lemma dict_mem_false (k : pystr) (d : notes) :
  dict_mem k d = false <-> ~ In k (dict_keys d).
Proof.
  rewrite <- dict_mem_keys. destruct (dict_mem k d); split; intro H;
    congruence.
Qed.

Lemma dict_mem_get (k : pystr) (d : notes) :
  dict_mem k d = true <-> exists v, dict_get k d = Some v.
Proof.
  unfold dict_mem. destruct (dict_get k d) as [v|]; split.
  - eauto.
  - reflexivity.
  - discriminate.
  - intros [v H]. discriminate.
Qed.

(** Setting a key that the store does not have adds an item at the end. *)
Lemma dict_set_new (k v : pystr) (d : notes) :
  dict_mem k d = false -> dict_set k v d = d ++ [(k, v)].
Proof.
  unfold dict_mem. induction d as [|[k' v'] d IH]; simpl; [reflexivity|].
  destruct (str_eqb k k'); [discriminate|]. intro H. rewrite IH by exact H.
  reflexivity.
Qed.

Lemma dict_get_app (k : pystr) (d d' : notes) :
  dict_get k (d ++ d') =
  match dict_get k d with Some v => Some v | None => dict_get k d' end.
Proof.
  induction d as [|[k' v'] d IH]; simpl; [reflexivity|].
  destruct (str_eqb k k'); [reflexivity | exact IH].
Qed.

Lemma dict_get_set_new (k v : pystr) (d : notes) :
  dict_mem k d = false -> dict_get k (dict_set k v d) = Some v.
Proof.
  intro H. rewrite dict_set_new by exact H. rewrite dict_get_app.
  unfold dict_mem in H. destruct (dict_get k d); [discriminate|].
  simpl. rewrite str_eqb_refl. reflexivity.
Qed.

(** ** [process_command] on each form of input *)

Lemma process_command_add (store : notes) (s n t : pystr) :
  valid_name n = true -> valid_text t = true -> strip s = add_note_cmd n t ->
  process_command store s =
  if dict_mem n store then (store, already_exists n)
  else (dict_set n t store, note_added n).
Proof.
  intros Hn Ht E. unfold process_command. rewrite E.
  assert (H : re_fullmatch re_add_note (add_note_cmd n t) = Some [n; t]).
  { apply fullmatch_add_note. exists n, t. auto. }
  rewrite H. reflexivity.
Qed.

Lemma process_command_get_notes (store : notes) (s : pystr) :
  strip s = get_notes_cmd ->
  process_command store s = (store, notes_list (join (str ",") (dict_keys store))).
Proof.
  intros E. unfold process_command. rewrite E.
  rewrite fullmatch_add_note_none
    by (intros n t _ _ H; symmetry in H; exact (add_note_not_get_notes _ _ H)).
  assert (H : re_fullmatch re_get_notes get_notes_cmd = Some []).
  { apply fullmatch_get_notes. auto. }
  rewrite H. destruct store; reflexivity.
Qed.

Lemma process_command_get_note (store : notes) (s n : pystr) :
  valid_name n = true -> strip s = get_note_cmd n ->
  process_command store s =
  (store, match dict_get n store with
          | Some text_content => note_content n (escape text_content)
          | None => note_not_found
          end).
Proof.
  intros Hn E. unfold process_command. rewrite E.
  rewrite fullmatch_add_note_none
    by (intros n' t' _ _ H; symmetry in H; exact (add_note_not_get_note _ _ _ H)).
  rewrite fullmatch_get_notes_none by apply get_note_not_get_notes.
  assert (H : re_fullmatch re_get_note (get_note_cmd n) = Some [n]).
  { apply fullmatch_get_note. exists n. auto. }
  rewrite H. cbn [nth]. destruct (dict_get n store); reflexivity.
Qed.

Lemma process_command_unknown (store : notes) (s : pystr) :
  (forall n t, valid_name n = true -> valid_text t = true ->
     strip s <> add_note_cmd n t) ->
  strip s <> get_notes_cmd ->
  (forall n, valid_name n = true -> strip s <> get_note_cmd n) ->
  process_command store s = (store, unknown_command).
Proof.
  intros H1 H2 H3. unfold process_command.
  rewrite fullmatch_add_note_none by exact H1.
  rewrite fullmatch_get_notes_none by exact H2.
  rewrite fullmatch_get_note_none by exact H3.
  reflexivity.
Qed.

(** Every input falls under one of the four cases. *)
Lemma command_cases (s : pystr) :
  (exists n t, valid_name n = true /\ valid_text t = true /\ s = add_note_cmd n t)
  \/ s = get_notes_cmd
  \/ (exists n, valid_name n = true /\ s = get_note_cmd n)
  \/ ((forall n t, valid_name n = true -> valid_text t = true -> s <> add_note_cmd n t)
      /\ s <> get_notes_cmd
      /\ (forall n, valid_name n = true -> s <> get_note_cmd n)).
Proof.
  destruct (re_fullmatch re_add_note s) as [g|] eqn:E1.
  { apply fullmatch_add_note in E1 as (n & t & Hn & Ht & E & _).
    left. exists n, t. auto. }
  destruct (re_fullmatch re_get_notes s) as [g|] eqn:E2.
  { apply fullmatch_get_notes in E2 as [E _]. right; left. exact E. }
  destruct (re_fullmatch re_get_note s) as [g|] eqn:E3.
  { apply fullmatch_get_note in E3 as (n & Hn & E & _).
    right; right; left. exists n. auto. }
  right; right; right. repeat split.
  - intros n t Hn Ht E.
    assert (H : re_fullmatch re_add_note s = Some [n; t])
      by (apply fullmatch_add_note; exists n, t; auto).
    congruence.
  - intro E.
    assert (H : re_fullmatch re_get_notes s = Some [])
      by (apply fullmatch_get_notes; auto).
    congruence.
  - intros n Hn E.
    assert (H : re_fullmatch re_get_note s = Some [n])
      by (apply fullmatch_get_note; exists n; auto).
    congruence.
Qed.

(** ** The interpreter and the store *)

(** What one call does to the store: nothing, or one new note at the end
    under a name that the store did not have. *)
Lemma process_command_step (store : notes) (s : pystr) :
  fst (process_command store s) = store
  \/ exists n t, valid_name n = true /\ valid_text t = true /\
       strip s = add_note_cmd n t /\ dict_mem n store = false /\
       process_command store s = (store ++ [(n, t)], note_added n).
Proof.
  destruct (command_cases (strip s))
    as [(n & t & Hn & Ht & E)|[E|[(n & Hn & E)|(H1 & H2 & H3)]]].
  - rewrite (process_command_add store s n t Hn Ht E).
    destruct (dict_mem n store) eqn:M.
    + left. reflexivity.
    + right. exists n, t. rewrite dict_set_new by exact M. auto 10.
  - rewrite (process_command_get_notes store s E). left. reflexivity.
  - rewrite (process_command_get_note store s n Hn E). left. reflexivity.
  - rewrite (process_command_unknown store s H1 H2 H3). left. reflexivity.
Qed.

Lemma store_inv_nil : store_inv [].
Proof. split; constructor. Qed.

Lemma store_inv_snoc (store : notes) (n t : pystr) :
  store_inv store -> valid_name n = true -> dict_mem n store = false ->
  store_inv (store ++ [(n, t)]).
Proof.
  intros [H1 H2] Hn M. apply dict_mem_false in M. unfold store_inv, dict_keys in *.
  rewrite map_app. simpl. split.
  - apply NoDup_app; [exact H1 | repeat constructor; intros [] | ].
    intros x Hx [<-|[]]. contradiction.
  - apply Forall_app. split; [exact H2|]. repeat constructor. exact Hn.
Qed.

Lemma process_command_inv (store : notes) (s : pystr) :
  store_inv store -> store_inv (fst (process_command store s)).
Proof.
  intro H. destruct (process_command_step store s)
    as [E|(n & t & Hn & Ht & _ & M & E)]; rewrite E; [exact H|].
  simpl. apply store_inv_snoc; assumption.
Qed.

Lemma process_commands_inv (store : notes) (cmds : list pystr) :
  store_inv store -> store_inv (fst (process_commands store cmds)).
Proof.
  revert store; induction cmds as [|c cmds IH]; intros store H; [exact H|].
  simpl. pose proof (process_command_inv store c H) as H1.
  destruct (process_command store c) as [store' r].
  specialize (IH store' H1). destruct (process_commands store' cmds).
  exact IH.
Qed.

(** Every store that the interpreter can reach from the empty one keeps
    the invariant. *)
Lemma reachable_store_inv (cmds : list pystr) :
  store_inv (fst (process_commands [] cmds)).
Proof. apply process_commands_inv, store_inv_nil. Qed.

Lemma store_inv_valid (store : notes) (n t : pystr) :
  store_inv store -> dict_get n store = Some t -> valid_name n = true.
Proof.
  intros [_ H] G. rewrite Forall_forall in H. apply H.
  apply dict_mem_keys. apply dict_mem_get. eauto.
Qed.

(** C10: under the store invariant (the names are pairwise distinct,
    not empty and without double quote), every call of the interpreter
    keeps the invariant, and either leaves the store as it is or adds
    one note at the end, by a successful add whose parsed name is one or
    more characters other than the quote and was not in the store; so
    no call removes or renames a note or changes a stored text. *)
Theorem C10_store_invariant (store : notes) (s : pystr) :
  store_inv store ->
  store_inv (fst (process_command store s))
  /\ (fst (process_command store s) = store
      \/ exists n t, valid_name n = true /\ valid_text t = true /\
           strip s = add_note_cmd n t /\ dict_mem n store = false /\
           process_command store s = (store ++ [(n, t)], note_added n))
  /\ (forall n t, dict_get n store = Some t ->
        dict_get n (fst (process_command store s)) = Some t).
Proof.
  intro H. split; [apply process_command_inv; exact H|].
  split; [apply process_command_step|].
  intros n t G. destruct (process_command_step store s)
    as [E|(n' & t' & _ & _ & _ & _ & E)]; rewrite E; [exact G|].
  simpl. rewrite dict_get_app, G. reflexivity.
Qed.

Lemma C10_witness :
  store_inv [(str "a", str "hi")]
  /\ store_inv
       (fst (process_command [(str "a", str "hi")] (add_note_cmd (str "b") (str "x")))).
Proof.
  assert (H : store_inv [(str "a", str "hi")]).
  { split; repeat constructor. intros []. }
  split; [exact H|].
  exact (proj1 (C10_store_invariant [(str "a", str "hi")]
                  (add_note_cmd (str "b") (str "x")) H)).
Defined.

(** C2: in a store that keeps the invariant, an add under a name that
    is already there returns the error with reason
    Note name 'N' already exists. and leaves the store as it was, so the
    name still has the text stored first. *)
Theorem C2_duplicate_add (store : notes) (n t1 t2 : pystr) :
  store_inv store -> dict_get n store = Some t1 -> valid_text t2 = true ->
  process_command store (add_note_cmd n t2)
  = (store, error_response (str "Note name '" ++ n ++ str "' already exists."))
  /\ dict_get n (fst (process_command store (add_note_cmd n t2))) = Some t1.
Proof.
  intros H G Ht. pose proof (store_inv_valid store n t1 H G) as Hn.
  rewrite (process_command_add store _ n t2 Hn Ht (strip_add_note_cmd n t2)).
  assert (M : dict_mem n store = true) by (apply dict_mem_get; eauto).
  rewrite M. split; [reflexivity | exact G].
Qed.

Lemma C2_witness :
  process_command [(str "a", str "hi")] (add_note_cmd (str "a") (str "bye"))
  = ([(str "a", str "hi")],
     error_response (str "Note name '" ++ str "a" ++ str "' already exists."))
  /\ dict_get (str "a")
       (fst (process_command [(str "a", str "hi")] (add_note_cmd (str "a") (str "bye"))))
     = Some (str "hi").
Proof.
  apply (C2_duplicate_add [(str "a", str "hi")] (str "a") (str "hi") (str "bye")).
  - split; repeat constructor. intros [].
  - reflexivity.
  - reflexivity.
Defined.

(** C8: a get of a name that the store does not have returns the
    error with reason note_not_found, which is not the reason of the
    error for a malformed command, and leaves the store as it was. *)
Theorem C8_get_missing (store : notes) (n : pystr) :
  valid_name n = true -> dict_mem n store = false ->
  process_command store (get_note_cmd n)
  = (store, error_response (str "note_not_found"))
  /\ str "note_not_found" <> str "Unknown or malformed command."
  /\ error_response (str "note_not_found") <> unknown_command.
Proof.
  intros Hn M.
  rewrite (process_command_get_note store _ n Hn (strip_get_note_cmd n)).
  unfold dict_mem in M. destruct (dict_get n store); [discriminate|].
  repeat split; vm_compute; discriminate.
Qed.

Lemma C8_witness :
  process_command [(str "a", str "hi")] (get_note_cmd (str "b"))
  = ([(str "a", str "hi")], error_response (str "note_not_found")).
Proof.
  apply (C8_get_missing [(str "a", str "hi")] (str "b")); reflexivity.
Defined.

(** ** Classification *)

(** C5: the classification is of the whole trimmed input and exact
    in form.  An input whose trimmed form is none of the three forms
    gets the error for an unknown or malformed command and the store is
    left as it was; an input whose trimmed form is one of them never
    gets that error, and is answered as its form says. *)
Theorem C5_classification (store : notes) (s : pystr) :
  (~ recognized (strip s) -> process_command store s = (store, unknown_command))
  /\ (recognized (strip s) -> snd (process_command store s) <> unknown_command)
  /\ (forall n t, valid_name n = true -> valid_text t = true ->
        strip s = add_note_cmd n t ->
        process_command store s =
        if dict_mem n store then (store, already_exists n)
        else (dict_set n t store, note_added n))
  /\ (strip s = get_notes_cmd ->
        process_command store s
        = (store, notes_list (join (str ",") (dict_keys store))))
  /\ (forall n, valid_name n = true -> strip s = get_note_cmd n ->
        process_command store s =
        (store, match dict_get n store with
                | Some text_content => note_content n (escape text_content)
                | None => note_not_found
                end)).
Proof.
  split; [|split; [|split; [|split]]].
  - intro H. apply process_command_unknown.
    + intros n t Hn Ht E. apply H. left. exists n, t. auto.
    + intro E. apply H. right; left. exact E.
    + intros n Hn E. apply H. right; right. exists n. auto.
  - intros [(n & t & Hn & Ht & E)|[E|(n & Hn & E)]].
    + rewrite (process_command_add store s n t Hn Ht E).
      destruct (dict_mem n store); vm_compute; discriminate.
    + rewrite (process_command_get_notes store s E). vm_compute. discriminate.
    + rewrite (process_command_get_note store s n Hn E).
      destruct (dict_get n store); vm_compute; discriminate.
  - intros n t Hn Ht E. apply process_command_add; assumption.
  - apply process_command_get_notes.
  - intros n Hn E. apply process_command_get_note; assumption.
Qed.

(** The rejected inputs that the specification names: trailing content, a
    near-miss tag name, two commands in one input, the empty string, and
    an empty name. *)
Example reject_trailing :
  process_command [] (str "<get-notes/> please") = ([], unknown_command).
Proof. vm_compute. reflexivity. Qed.

Example reject_near_miss :
  process_command [] (str "<get-note/>") = ([], unknown_command).
Proof. vm_compute. reflexivity. Qed.

Example reject_two_commands :
  process_command [] (str "<get-notes/><get-notes/>") = ([], unknown_command).
Proof. vm_compute. reflexivity. Qed.

Example reject_empty : process_command [] [] = ([], unknown_command).
Proof. vm_compute. reflexivity. Qed.

Example reject_empty_name :
  process_command [] (get_note_cmd []) = ([], unknown_command).
Proof. vm_compute. reflexivity. Qed.

Example accept_surrounding_space :
  process_command [] (str "  <get-notes/>  ")
  = ([], str "<notes-list names=" ++ dq :: dq :: str "/>").
Proof. vm_compute. reflexivity. Qed.

(** ** Listing *)

Lemma process_adds (store : notes) (l : list (pystr * pystr)) :
  Forall (fun nt => valid_name (fst nt) = true /\ valid_text (snd nt) = true) l ->
  NoDup (dict_keys store ++ map fst l) ->
  process_commands store (add_cmds l) = (store ++ l, map note_added (map fst l)).
Proof.
  revert store; induction l as [|[n t] l IH]; intros store V D;
    cbn [add_cmds map process_commands fst snd].
  - rewrite app_nil_r. reflexivity.
  - inversion V as [|? ? [Hn Ht] V']; subst. cbn [fst snd] in Hn, Ht.
    rewrite (process_command_add store _ n t Hn Ht (strip_add_note_cmd n t)).
    assert (M : dict_mem n store = false).
    { apply dict_mem_false. apply NoDup_remove_2 in D. intro I. apply D.
      apply in_or_app. left. exact I. }
    rewrite M, (dict_set_new n t store M).
    fold (add_cmds l). rewrite IH.
    + rewrite <- app_assoc. reflexivity.
    + exact V'.
    + unfold dict_keys. rewrite map_app, <- app_assoc. exact D.
Qed.

(** C4: a listing of the empty store returns the response with an
    empty name list, which is not an error; after the adds of [k] names
    that are pairwise distinct, each add succeeds and the listing
    returns exactly these names, once each, joined by commas in the
    order of the adds. *)
Theorem C4_listing (l : list (pystr * pystr)) :
  Forall (fun nt => valid_name (fst nt) = true /\ valid_text (snd nt) = true) l ->
  NoDup (map fst l) ->
  process_command [] get_notes_cmd
  = ([], str "<notes-list names=" ++ dq :: dq :: str "/>")
  /\ exists store,
       process_commands [] (add_cmds l) = (store, map note_added (map fst l))
       /\ dict_keys store = map fst l
       /\ process_command store get_notes_cmd
          = (store, str "<notes-list names=" ++ dq :: join (str ",") (map fst l)
                    ++ dq :: str "/>").
Proof.
  intros V D. split; [reflexivity|]. exists l.
  split; [exact (process_adds [] l V D)|]. split; [reflexivity|].
  apply (process_command_get_notes l get_notes_cmd strip_get_notes_cmd).
Qed.

Lemma C4_witness :
  exists store,
    process_commands []
      (add_cmds [(str "b", str "x"); (str "a", str "y"); (str "c", [])])
    = (store, [note_added (str "b"); note_added (str "a"); note_added (str "c")])
    /\ process_command store get_notes_cmd
       = (store, str "<notes-list names=" ++ dq :: str "b,a,c" ++ dq :: str "/>").
Proof.
  destruct (C4_listing [(str "b", str "x"); (str "a", str "y"); (str "c", [])])
    as [_ [store [H1 [_ H2]]]].
  - repeat constructor.
  - repeat constructor; simpl; intuition discriminate.
  - exists store. split; [exact H1 | exact H2].
Defined.

(** ** Escaping *)

Lemma replace_char (c : char) (new s : pystr) :
  replace [c] new s = flat_map (fun x => if (c =? x)%N then new else [x]) s.
Proof.
  unfold replace. induction s as [|x s IH]; [reflexivity|].
  cbn [replace_from starts_with length Nat.sub flat_map].
  rewrite andb_true_r. destruct (c =? x)%N; rewrite IH; reflexivity.
Qed.

Lemma flat_map_flat_map {A B C} (f : A -> list B) (g : B -> list C) (l : list A) :
  flat_map g (flat_map f l) = flat_map (fun x => flat_map g (f x)) l.
Proof.
  induction l as [|x l IH]; [reflexivity|].
  simpl. rewrite flat_map_app, IH. reflexivity.
Qed.

Lemma escape_flat_map (t : pystr) : escape t = flat_map escape_char t.
Proof.
  unfold escape.
  change (str "&") with [38%N]. change (str "<") with [60%N].
  change (str ">") with [62%N]. change (str "'") with [39%N]. unfold dq.
  rewrite !replace_char, !flat_map_flat_map.
  apply flat_map_ext. intro c. unfold escape_char.
  destruct (N.eqb_spec c 38) as [->|H1]; [reflexivity|].
  destruct (N.eqb_spec c 60) as [->|H2]; [reflexivity|].
  destruct (N.eqb_spec c 62) as [->|H3]; [reflexivity|].
  destruct (N.eqb_spec c 34) as [->|H4]; [reflexivity|].
  destruct (N.eqb_spec c 39) as [->|H5]; [reflexivity|].
  apply N.eqb_neq in H1, H2, H3, H4, H5. rewrite N.eqb_sym in H1, H2, H3, H4, H5.
  cbn [flat_map app]. rewrite H1. cbn [flat_map app]. rewrite H2.
  cbn [flat_map app]. rewrite H3. cbn [flat_map app]. rewrite H4.
  cbn [flat_map app]. rewrite H5. reflexivity.
Qed.

Lemma escape_plain (t : pystr) : plain t = true -> escape t = t.
Proof.
  rewrite escape_flat_map. induction t as [|c t IH]; [reflexivity|].
  cbn [plain forallb flat_map]. intro H. apply andb_true_iff in H as [Hc Ht].
  fold (plain t) in Ht. rewrite (IH Ht).
  unfold special in Hc. apply negb_true_iff in Hc.
  repeat (apply orb_false_iff in Hc as [Hc ?]).
  unfold escape_char. rewrite Hc, H, H0, H1, H2. reflexivity.
Qed.

Lemma no_raw_special_char (c : char) (s : pystr) :
  no_raw_special s = true -> no_raw_special (escape_char c ++ s) = true.
Proof.
  intro IH. unfold escape_char.
  destruct (N.eqb_spec c 38) as [->|H1]; [exact IH|].
  destruct (N.eqb_spec c 60) as [->|H2]; [exact IH|].
  destruct (N.eqb_spec c 62) as [->|H3]; [exact IH|].
  destruct (N.eqb_spec c 34) as [->|H4]; [exact IH|].
  destruct (N.eqb_spec c 39) as [->|H5]; [exact IH|].
  apply N.eqb_neq in H1, H2, H3, H4, H5.
  cbn [app no_raw_special]. unfold special. rewrite H1, H2, H3, H4, H5, IH.
  reflexivity.
Qed.

Lemma no_raw_special_escape (t : pystr) : no_raw_special (escape t) = true.
Proof.
  rewrite escape_flat_map. induction t as [|c t IH]; [reflexivity|].
  cbn [flat_map]. apply no_raw_special_char. exact IH.
Qed.

Lemma unescape_char (c : char) (s : pystr) :
  unescape_from 0 (escape_char c ++ s) = c :: unescape_from 0 s.
Proof.
  unfold escape_char.
  destruct (N.eqb_spec c 38) as [->|H1]; [reflexivity|].
  destruct (N.eqb_spec c 60) as [->|H2]; [reflexivity|].
  destruct (N.eqb_spec c 62) as [->|H3]; [reflexivity|].
  destruct (N.eqb_spec c 34) as [->|H4]; [reflexivity|].
  destruct (N.eqb_spec c 39) as [->|H5]; [reflexivity|].
  apply N.eqb_neq in H1. rewrite N.eqb_sym in H1.
  cbn [app unescape_from]. unfold entity_at.
  change (str "&amp;") with (38%N :: str "amp;").
  change (str "&lt;") with (38%N :: str "lt;").
  change (str "&gt;") with (38%N :: str "gt;").
  change (str "&quot;") with (38%N :: str "quot;").
  change (str "&apos;") with (38%N :: str "apos;").
  cbn [starts_with]. rewrite H1. reflexivity.
Qed.

Lemma unescape_escape (t : pystr) : unescape (escape t) = t.
Proof.
  rewrite escape_flat_map. unfold unescape.
  induction t as [|c t IH]; [reflexivity|].
  cbn [flat_map]. rewrite unescape_char, IH. reflexivity.
Qed.

(** C3: the text shown by a note-content response is the stored
    text after the five replacements in the order [&], [<], [>], double
    quote, apostrophe, which puts the escaped form for each of these
    characters once and leaves the others; the text shown has no raw
    occurrence of the five characters outside the escaped forms, and the
    inverse unescape gives the stored text back.  The store keeps the
    text as it was given: a get does not change it and an add stores it
    without escaping. *)
Theorem C3_escaping (store : notes) (n t : pystr) :
  store_inv store -> dict_get n store = Some t ->
  process_command store (get_note_cmd n)
  = (store,
     note_content n
       (replace (str "'") (str "&apos;")
         (replace [dq] (str "&quot;")
           (replace (str ">") (str "&gt;")
             (replace (str "<") (str "&lt;")
               (replace (str "&") (str "&amp;") t))))))
  /\ escape t = flat_map escape_char t
  /\ no_raw_special (escape t) = true
  /\ unescape (escape t) = t
  /\ dict_get n (fst (process_command store (get_note_cmd n))) = Some t
  /\ (forall n' t', valid_name n' = true -> valid_text t' = true ->
        dict_mem n' store = false ->
        dict_get n' (fst (process_command store (add_note_cmd n' t'))) = Some t').
Proof.
  intros H G. pose proof (store_inv_valid store n t H G) as Hn.
  rewrite (process_command_get_note store _ n Hn (strip_get_note_cmd n)), G.
  split; [reflexivity|].
  split; [apply escape_flat_map|].
  split; [apply no_raw_special_escape|].
  split; [apply unescape_escape|].
  split; [exact G|].
  intros n' t' Hn' Ht' M.
  rewrite (process_command_add store _ n' t' Hn' Ht' (strip_add_note_cmd n' t')), M.
  apply dict_get_set_new. exact M.
Qed.

Lemma C3_witness :
  process_command [(str "n", str "a<b & 'c'")] (get_note_cmd (str "n"))
  = ([(str "n", str "a<b & 'c'")],
     note_content (str "n") (str "a&lt;b &amp; &apos;c&apos;"))
  /\ unescape (str "a&lt;b &amp; &apos;c&apos;") = str "a<b & 'c'".
Proof.
  destruct (C3_escaping [(str "n", str "a<b & 'c'")] (str "n") (str "a<b & 'c'"))
    as (H1 & _ & _ & H2 & _).
  - split; repeat constructor. intros [].
  - reflexivity.
  - split; [exact H1 | exact H2].
Defined.

(** ** Add, then get *)

(** C1, as the code has it: for a name that the add-note pattern
    accepts and that the store does not have, and a text without double
    quote, the add succeeds and stores the text as given; the get that
    follows returns the note-content response with the text escaped,
    which is the text itself when it has none of the five characters, and
    from which the inverse unescape gives the text back. *)
Theorem C1_add_then_get (store : notes) (n t : pystr) :
  valid_name n = true -> valid_text t = true -> dict_mem n store = false ->
  exists store',
    process_command store (add_note_cmd n t) = (store', note_added n)
    /\ dict_get n store' = Some t
    /\ process_command store' (get_note_cmd n)
       = (store', note_content n (escape t))
    /\ unescape (escape t) = t
    /\ (plain t = true -> escape t = t).
Proof.
  intros Hn Ht M. exists (dict_set n t store).
  rewrite (process_command_add store _ n t Hn Ht (strip_add_note_cmd n t)), M.
  split; [reflexivity|].
  pose proof (dict_get_set_new n t store M) as G.
  split; [exact G|].
  rewrite (process_command_get_note _ _ n Hn (strip_get_note_cmd n)), G.
  split; [reflexivity|].
  split; [apply unescape_escape | apply escape_plain].
Qed.

Lemma C1_witness :
  exists store',
    process_command [] (add_note_cmd (str "a") (str "hi")) = (store', note_added (str "a"))
    /\ process_command store' (get_note_cmd (str "a"))
       = (store', note_content (str "a") (str "hi")).
Proof.
  destruct (C1_add_then_get [] (str "a") (str "hi")) as (store' & H1 & _ & H2 & _);
    [reflexivity | reflexivity | reflexivity |].
  exists store'. split; [exact H1 | exact H2].
Defined.

(** The claim as it is written fails on a text with one of the five
    characters: the add succeeds, and the get shows the text escaped, not
    unchanged. *)
Lemma C1_counterexample :
  process_command [] (add_note_cmd (str "n") (str "a&b"))
  = ([(str "n", str "a&b")], note_added (str "n"))
  /\ process_command [(str "n", str "a&b")] (get_note_cmd (str "n"))
     = ([(str "n", str "a&b")], note_content (str "n") (str "a&amp;b"))
  /\ note_content (str "n") (str "a&amp;b") <> note_content (str "n") (str "a&b").
Proof.
  split; [vm_compute; reflexivity|].
  split; [vm_compute; reflexivity|].
  vm_compute. discriminate.
Qed.

(** A text with a double quote is not accepted by the add-note pattern at
    all. *)
Example add_text_with_quote :
  process_command [] (add_note_cmd (str "n") [dq]) = ([], unknown_command).
Proof. vm_compute. reflexivity. Qed.

(** ** The patterns of the turn *)

Lemma in_run_lit_i (w s : pystr) (m : mres) :
  In m (run (lit_i w) s) <->
  exists k r, match_chars (map ci_match w) s = Some (k, r) /\ m = (k, [], r).
Proof.
  unfold lit_i. rewrite run_chars.
  destruct (match_chars (map ci_match w) s) as [[k r]|]; simpl; split.
  - intros [<-|[]]. eauto.
  - intros (k' & r' & E & ->). inversion E. auto.
  - intros [].
  - intros (k' & r' & E & _). discriminate.
Qed.

Lemma in_run_star_lazy (p : char -> bool) (s : pystr) (m : mres) :
  In m (run (StarLazy p) s) <->
  exists k r, s = k ++ r /\ forallb p k = true /\ m = (k, [], r).
Proof.
  simpl. rewrite in_map_iff. split.
  - intros [[k r] [<- H]]. apply in_star_lazy in H as [H1 H2].
    exists k, r. auto.
  - intros [k [r [H1 [H2 ->]]]]. exists (k, r). split; [reflexivity|].
    apply in_star_lazy. auto.
Qed.

(** The marker pattern matches when the text begins with the marker. *)
Lemma re_match_assistant (s : pystr) :
  begins_with_marker s = true -> exists m, re_match re_assistant s = Some m.
Proof.
  unfold begins_with_marker, starts_with_i, lstrip. intro H.
  destruct (match_chars (map ci_match (str "assistant>")) (drop_while isspace s))
    as [[k r]|] eqn:E; [|discriminate].
  destruct (re_match re_assistant s) as [m|] eqn:M; [eauto|]. exfalso.
  refine (proj1 (re_match_none re_assistant s) M
            (take_while isspace s ++ k ++ [], [] ++ [] ++ [], r) _).
  unfold re_assistant. run_seq.
  - apply in_run_star. exists (take_while isspace s), (drop_while isspace s).
    rewrite take_drop_while, take_while_all. auto.
  - run_seq.
    + apply in_run_lit_i. exists k, r. split; [exact E | reflexivity].
    + apply in_run_star. exists [], r. auto.
    + reflexivity.
  - reflexivity.
Qed.

Lemma ci_match_lt (c : char) : ci_match 60%N c = true -> c = 60%N.
Proof. unfold ci_match. cbn. apply N.eqb_eq. Qed.

(** Runs of a sequence whose first part has one run only. *)
Lemma run_seq_single (r1 r2 : regex) (s : pystr) (m1 : mres) :
  run r1 s = [m1] ->
  run (Seq r1 r2) s =
  map (fun m2 => (consumed m1 ++ consumed m2, groups m1 ++ groups m2, rest m2))
      (run r2 (rest m1)).
Proof. intro H. cbn [run]. rewrite H. simpl. apply app_nil_r. Qed.

Lemma run_seq_none (r1 r2 : regex) (s : pystr) :
  run r1 s = [] -> run (Seq r1 r2) s = [].
Proof. intro H. cbn [run]. rewrite H. reflexivity. Qed.

Lemma re_match_seq_single (r1 r2 : regex) (s : pystr) (m1 : mres) :
  run r1 s = [m1] ->
  option_map rest (re_match (Seq r1 r2) s) = option_map rest (re_match r2 (rest m1)).
Proof.
  intro H. unfold re_match. rewrite (run_seq_single r1 r2 s m1 H).
  destruct (run r2 (rest m1)); reflexivity.
Qed.

Lemma run_star_stop (p : char -> bool) (s : pystr) :
  match s with [] => True | c :: _ => p c = false end ->
  run (Star p) s = [([], [], s)].
Proof.
  destruct s as [|c s]; cbn [run star_greedy]; [reflexivity|].
  intros ->. reflexivity.
Qed.

Lemma star_greedy_head (p : char -> bool) (s : pystr) :
  hd_error (star_greedy p s) = Some (take_while p s, drop_while p s).
Proof.
  induction s as [|c s IH]; [reflexivity|]. cbn [star_greedy take_while drop_while].
  destruct (p c); [|reflexivity].
  destruct (star_greedy p s) as [|x l]; [discriminate|].
  simpl in *. inversion IH; subst. reflexivity.
Qed.

Lemma run_star_head (p : char -> bool) (s : pystr) :
  exists l, run (Star p) s = (take_while p s, [], drop_while p s) :: l.
Proof.
  cbn [run]. pose proof (star_greedy_head p s) as H.
  destruct (star_greedy p s) as [|x l]; [discriminate|].
  simpl in H. inversion H; subst. exists (map (fun kr => (fst kr, [], snd kr)) l).
  reflexivity.
Qed.

(** The lazy repetition of any character before [R]: the first run stops
    at the first place where [R] matches. *)
Lemma run_lazy_here (R : regex) (x : pystr) (m : mres) (l : list mres) :
  run R x = m :: l ->
  re_match (Seq (StarLazy any_char) R) x = Some m.
Proof.
  intro H. unfold re_match. cbn [run].
  destruct x as [|c x]; cbn [star_lazy map flat_map rest snd]; rewrite H;
    destruct m as [[k g] r]; reflexivity.
Qed.

Lemma run_lazy_skip (R : regex) (c : char) (s : pystr) :
  run R (c :: s) = [] ->
  run (Seq (StarLazy any_char) R) (c :: s) =
  map (fun m => (c :: consumed m, groups m, rest m))
      (run (Seq (StarLazy any_char) R) s).
Proof.
  intro H. cbn [run star_lazy any_char map flat_map rest snd]. rewrite H.
  cbn [map app]. rewrite !map_map, !flat_map_concat_map, !map_map, concat_map, map_map.
  f_equal. apply map_ext. intros [k r]. cbn. rewrite map_map. reflexivity.
Qed.

Lemma re_match_lazy (R : regex) (b x : pystr) (m : mres) (l : list mres) :
  (forall b1 b2, b = b1 ++ b2 -> b2 <> [] -> run R (b2 ++ x) = []) ->
  run R x = m :: l ->
  option_map rest (re_match (Seq (StarLazy any_char) R) (b ++ x)) = Some (rest m).
Proof.
  intros Hb Hx. induction b as [|c b IH].
  - simpl app. rewrite (run_lazy_here R x m l Hx). reflexivity.
  - simpl app. unfold re_match. rewrite run_lazy_skip.
    + unfold re_match in IH.
      destruct (run (Seq (StarLazy any_char) R) (b ++ x)) as [|y l'].
      * simpl in IH. apply IH. intros b1 b2 E N. apply (Hb (c :: b1) b2); [|exact N].
        rewrite E. reflexivity.
      * simpl. simpl in IH. apply IH. intros b1 b2 E N.
        apply (Hb (c :: b1) b2); [|exact N]. rewrite E. reflexivity.
    + apply (Hb [] (c :: b)); [reflexivity | discriminate].
Qed.

(** ** Reasoning blocks *)

Lemma contains_i_suffix (w b1 b2 : pystr) :
  contains_i w (b1 ++ b2) = false -> starts_with_i w b2 = false.
Proof.
  induction b1 as [|c b1 IH]; simpl app.
  - destruct b2; simpl; intro H; apply orb_false_iff in H as [H _]; exact H.
  - cbn [contains_i]. intro H. apply orb_false_iff in H as [_ H]. apply IH, H.
Qed.

Lemma contains_i_app (w a x : pystr) :
  starts_with_i w x = true -> contains_i w (a ++ x) = true.
Proof.
  intro H. induction a as [|c a IH]; simpl app.
  - destruct x; simpl; rewrite H; reflexivity.
  - cbn [contains_i]. rewrite IH. apply orb_true_r.
Qed.

(** A closing tag cannot start inside [b] and end in the closing tag that
    follows [b]: its first character [<] is none of its other
    characters. *)
Lemma closing_tag_not_astride (b2 y : pystr) :
  b2 <> [] -> starts_with_i closing_tag b2 = false ->
  match_chars (map ci_match closing_tag) (b2 ++ closing_tag ++ y) = None.
Proof.
  unfold starts_with_i.
  change closing_tag with [60; 47; 116; 104; 105; 110; 107; 62]%N.
  intros N H.
  destruct b2 as [|c1 [|c2 [|c3 [|c4 [|c5 [|c6 [|c7 [|c8 b2]]]]]]]];
    [contradiction|..]; cbn [map match_chars app] in *.
  all: try (destruct (ci_match 60%N c1) eqn:?; [|reflexivity]).
  all: try (destruct (ci_match 47%N c2) eqn:?; [|reflexivity]).
  all: try (destruct (ci_match 116%N c3) eqn:?; [|reflexivity]).
  all: try (destruct (ci_match 104%N c4) eqn:?; [|reflexivity]).
  all: try (destruct (ci_match 105%N c5) eqn:?; [|reflexivity]).
  all: try (destruct (ci_match 110%N c6) eqn:?; [|reflexivity]).
  all: try (destruct (ci_match 107%N c7) eqn:?; [|reflexivity]).
  all: try (destruct (ci_match 62%N c8) eqn:?; [|reflexivity]).
  all: try reflexivity.
  discriminate.
Qed.

Lemma rstrip_all (s : pystr) : forallb isspace s = true -> rstrip s = [].
Proof.
  intro H. unfold rstrip. rewrite drop_while_all; [reflexivity|].
  rewrite forallb_forall in *. intros x Hx. apply H. apply in_rev. exact Hx.
Qed.

Lemma lstrip_rstrip (s : pystr) : lstrip (rstrip s) = rstrip (lstrip s).
Proof.
  unfold lstrip. rewrite <- (take_drop_while isspace s) at 1.
  pose proof (take_while_all isspace s) as Ha.
  pose proof (drop_while_head isspace s) as Hh.
  destruct (drop_while isspace s) as [|c r].
  - rewrite app_nil_r. rewrite rstrip_all by exact Ha. reflexivity.
  - rewrite rstrip_app by exact Hh.
    rewrite (drop_while_app_stop isspace _ c _ Ha Hh).
    change (c :: r) with ([] ++ c :: r). rewrite rstrip_app by exact Hh.
    reflexivity.
Qed.

Lemma lstrip_idem (s : pystr) : lstrip (lstrip s) = lstrip s.
Proof. unfold lstrip. apply drop_while_id. apply drop_while_head. Qed.

Lemma rstrip_idem (s : pystr) : rstrip (rstrip s) = rstrip s.
Proof.
  unfold rstrip. rewrite rev_involutive. f_equal.
  apply drop_while_id. apply drop_while_head.
Qed.

Lemma strip_lstrip_rstrip (s : pystr) : strip (lstrip (rstrip s)) = strip s.
Proof.
  unfold strip. rewrite lstrip_idem, lstrip_rstrip. apply rstrip_idem.
Qed.

Lemma re_sub_start_rest (r : regex) (s x : pystr) :
  option_map rest (re_match r s) = Some x -> re_sub_start r s = x.
Proof.
  unfold re_sub_start. destruct (re_match r s); simpl; intro H;
    inversion H; reflexivity.
Qed.

Lemma strip_block (b c : pystr) :
  strip (opening_tag ++ b ++ closing_tag ++ c)
  = opening_tag ++ b ++ closing_tag ++ rstrip c.
Proof.
  unfold strip, lstrip.
  change opening_tag with (60%N :: str "think>").
  change closing_tag with (str "</think" ++ [62%N]).
  cbn [app drop_while]. change (isspace 60%N) with false. cbv iota.
  rewrite <- !app_assoc. cbn [app].
  rewrite !app_comm_cons, !app_assoc. rewrite rstrip_app by reflexivity.
  reflexivity.
Qed.

(** The substitution removes a leading block up to the first closing
    tag, with the white space that follows it. *)
Lemma re_sub_think_block (b c : pystr) :
  contains_i closing_tag b = false ->
  re_sub_start re_think (opening_tag ++ b ++ closing_tag ++ c) = lstrip c.
Proof.
  intro Hb. apply re_sub_start_rest. unfold re_think.
  rewrite (re_match_seq_single (Star isspace) _ _ ([], [], opening_tag ++ b ++ closing_tag ++ c))
    by (apply run_star_stop; reflexivity).
  cbn [rest snd].
  rewrite (re_match_seq_single (lit_i (str "<think>")) _ _
             (opening_tag, [], b ++ closing_tag ++ c))
    by (unfold lit_i; rewrite run_chars; reflexivity).
  cbn [rest snd].
  destruct (run_star_head isspace c) as [l Hl].
  assert (HR : run (Seq (lit_i (str "</think>")) (Star isspace)) (closing_tag ++ c)
               = map (fun m2 => (consumed (closing_tag, @nil pystr, c) ++ consumed m2,
                                 groups (closing_tag, @nil pystr, c) ++ groups m2, rest m2))
                     ((take_while isspace c, [], drop_while isspace c) :: l)).
  { rewrite (run_seq_single (lit_i (str "</think>")) _ _ (closing_tag, [], c))
      by (unfold lit_i; rewrite run_chars; reflexivity).
    cbn [rest snd]. rewrite Hl. reflexivity. }
  cbn [map] in HR.
  pose proof (fun Hyp => re_match_lazy _ b _ _ _ Hyp HR) as K.
  rewrite K; [reflexivity|].
  intros b1 b2 E N. apply run_seq_none. unfold lit_i. rewrite run_chars.
  rewrite closing_tag_not_astride; [reflexivity | exact N |].
  apply (contains_i_suffix closing_tag b1 b2). rewrite <- E. exact Hb.
Qed.

Lemma think_strip_block (b c : pystr) :
  contains_i closing_tag b = false ->
  think_strip (opening_tag ++ b ++ closing_tag ++ c) = strip c.
Proof.
  intro Hb. unfold think_strip. rewrite strip_block.
  rewrite (re_sub_think_block b (rstrip c) Hb). apply strip_lstrip_rstrip.
Qed.

(** Without a block at the start the substitution changes nothing. *)
Lemma re_match_think_none (s : pystr) :
  begins_with_block s = false -> re_match re_think s = None.
Proof.
  intro H. apply re_match_none. intros m Hm. unfold re_think in Hm.
  apply in_run_seq in Hm as (m1 & m2 & H1 & H2 & _).
  apply in_run_star in H1 as (ws & s1 & -> & Hws & ->). cbn [rest snd] in H2.
  apply in_run_seq in H2 as (m3 & m4 & H3 & H4 & _).
  apply in_run_lit_i in H3 as (k & r1 & E1 & ->). cbn [rest snd] in H4.
  apply in_run_seq in H4 as (m5 & m6 & H5 & H6 & _).
  apply in_run_star_lazy in H5 as (body & r2 & -> & _ & ->). cbn [rest snd] in H6.
  apply in_run_seq in H6 as (m7 & m8 & H7 & _ & _).
  apply in_run_lit_i in H7 as (k' & r3 & E2 & _).
  unfold begins_with_block, lstrip in H.
  assert (L : drop_while isspace (ws ++ s1) = s1).
  { destruct s1 as [|c0 s1]; [discriminate|].
    apply drop_while_app_stop; [exact Hws|].
    change (str "<think>") with (60%N :: str "think>") in E1.
    cbn [map match_chars] in E1. destruct (ci_match 60%N c0) eqn:C; [|discriminate].
    apply ci_match_lt in C. subst c0. reflexivity. }
  rewrite L, E1 in H. rewrite contains_i_app in H; [discriminate|].
  unfold starts_with_i. rewrite E2. reflexivity.
Qed.

Lemma think_strip_no_block (c : pystr) :
  begins_with_block (strip c) = false -> think_strip c = strip c.
Proof.
  intro H. unfold think_strip, re_sub_start.
  rewrite (re_match_think_none _ H). apply strip_idem.
Qed.

(** ** The turn *)

Lemma agent_turn_with_marker (interp : notes -> pystr -> notes * pystr)
  (store : notes) (llm_full_output : pystr) :
  begins_with_marker (think_strip llm_full_output) = true ->
  agent_turn_with interp store llm_full_output =
  {| command_after_think_strip := think_strip llm_full_output;
     llm_included_assistant_prefix := true;
     final_command_candidate :=
       strip (re_sub_start re_assistant (think_strip llm_full_output));
     suggested_system_response := invalid_format;
     store_after := store |}.
Proof.
  intro H. unfold agent_turn_with.
  destruct (re_match_assistant _ H) as [m E]. rewrite E. reflexivity.
Qed.

(** C6: when the output, after the removal of a reasoning block,
    begins with the role marker (in any case, after optional white
    space), the turn answers with the fixed error for the format, whatever
    follows the marker; the result does not depend on the interpreter,
    which is therefore not called, and the store is left as it was.  When
    the operator accepts the suggested response (an empty line), this
    error is what the log receives, and the loop goes on with the same
    store. *)
Theorem C6_marker_rejected (interp : notes -> pystr -> notes * pystr)
  (e : env) (llm_full_output : pystr) :
  begins_with_marker (think_strip llm_full_output) = true ->
  agent_turn_with interp (command_processor e) llm_full_output =
  {| command_after_think_strip := think_strip llm_full_output;
     llm_included_assistant_prefix := true;
     final_command_candidate :=
       strip (re_sub_start re_assistant (think_strip llm_full_output));
     suggested_system_response :=
       error_response
         (str "Invalid command format: Do not include 'assistant>' prefix. Output only the command itself.");
     store_after := command_processor e |}
  /\ loop_iteration e llm_full_output [] =
     Next {| conversation :=
               conversation e ++
               [{| role := str "assistant";
                   content := str "assistant> " ++
                     strip (re_sub_start re_assistant (think_strip llm_full_output)) |};
                {| role := str "user";
                   content := str "system> " ++ invalid_format |}];
             command_processor := command_processor e |}.
Proof.
  intro H. split; [exact (agent_turn_with_marker interp _ _ H)|].
  unfold loop_iteration, agent_turn.
  rewrite (agent_turn_with_marker process_command _ _ H).
  cbn [final_command_candidate suggested_system_response store_after].
  unfold add_message. rewrite <- app_assoc. reflexivity.
Qed.

Lemma C6_witness :
  begins_with_marker
    (think_strip (str "Assistant> " ++ add_note_cmd (str "a") (str "b"))) = true
  /\ suggested_system_response
       (agent_turn [] (str "Assistant> " ++ add_note_cmd (str "a") (str "b")))
     = invalid_format
  /\ store_after
       (agent_turn [] (str "Assistant> " ++ add_note_cmd (str "a") (str "b")))
     = [].
Proof.
  assert (H : begins_with_marker
                (think_strip (str "Assistant> " ++ add_note_cmd (str "a") (str "b")))
              = true) by (vm_compute; reflexivity).
  split; [exact H|]. unfold agent_turn.
  pose proof (proj1 (C6_marker_rejected process_command initial_env
                       (str "Assistant> " ++ add_note_cmd (str "a") (str "b")) H))
    as E.
  cbn [command_processor initial_env] in E. rewrite E.
  split; reflexivity.
Defined.

(** C7, as the code has it: a reasoning block at the start of the
    output is removed up to the first closing tag.  When the body [b] has
    no closing tag in it, the output made of the block and of [c] is
    reduced to [c] trimmed; when moreover [c] trimmed does not begin with a
    reasoning block of its own, the turn on that output is the turn on
    [c] alone: the same command and the same response. *)
Theorem C7_block_removed (store : notes) (b c : pystr) :
  contains_i closing_tag b = false ->
  begins_with_block (strip c) = false ->
  think_strip (opening_tag ++ b ++ closing_tag ++ c) = strip c
  /\ agent_turn store (opening_tag ++ b ++ closing_tag ++ c) = agent_turn store c.
Proof.
  intros Hb Hc. pose proof (think_strip_block b c Hb) as E1.
  pose proof (think_strip_no_block c Hc) as E2.
  split; [exact E1|].
  unfold agent_turn, agent_turn_with. rewrite E1, E2. reflexivity.
Qed.

Lemma C7_witness :
  agent_turn [] (opening_tag ++ str "ignore" ++ closing_tag ++ str "<get-notes/>")
  = agent_turn [] (str "<get-notes/>").
Proof.
  apply (C7_block_removed [] (str "ignore") (str "<get-notes/>"));
    vm_compute; reflexivity.
Defined.

(** The claim as it is written fails on a body with a closing tag in it,
    since the block ends at the first closing tag, and on a [c] that
    begins with a block of its own, since one block only is removed. *)
Lemma C7_counterexample :
  (suggested_system_response
     (agent_turn [] (opening_tag ++ str "a</think>b" ++ closing_tag ++ str "<get-notes/>"))
   = unknown_command
   /\ suggested_system_response (agent_turn [] (str "<get-notes/>"))
      = notes_list [])
  /\ (suggested_system_response
        (agent_turn []
           (opening_tag ++ str "a" ++ closing_tag ++ str "<think>x</think><get-notes/>"))
      = unknown_command
      /\ suggested_system_response (agent_turn [] (str "<think>x</think><get-notes/>"))
         = notes_list [])
  /\ unknown_command <> notes_list [].
Proof.
  repeat split; try (vm_compute; reflexivity). vm_compute. discriminate.
Qed.

(** ** Reset *)

Lemma clear_given (p : pystr) (messages : list message) :
  p <> [] -> clear (Some p) messages = [{| role := str "system"; content := p |}].
Proof. destruct p; [contradiction | reflexivity]. Qed.

Lemma prompt_not_empty : AGENT_SYSTEM_PROMPT <> [].
Proof. intro H. apply (f_equal (@length char)) in H. vm_compute in H. discriminate. Qed.

(** C9, as the code has it: a reset with a new system prompt that
    is given and not empty leaves the log with that one system turn; a
    reset without a prompt, or with an empty one, leaves the first turn
    alone when it is a system turn, and nothing otherwise.  The reset of the agent loop,
    typed as clear in any case, always gives the prompt of the agent and
    also replaces the store by an empty one. *)
Theorem C9_reset (messages : list message) (p : pystr) (e : env)
  (llm_full_output user_override_response : pystr) :
  p <> [] -> lower user_override_response = str "clear" ->
  clear (Some p) messages = [{| role := str "system"; content := p |}]
  /\ clear None messages
     = match messages with
       | m :: _ => if str_eqb (role m) (str "system") then [m] else []
       | [] => []
       end
  /\ clear (Some []) messages = clear None messages
  /\ loop_iteration e llm_full_output user_override_response
     = Next {| conversation :=
                 [{| role := str "system"; content := AGENT_SYSTEM_PROMPT |}];
               command_processor := [] |}.
Proof.
  intros Hp Hc. split; [apply clear_given; exact Hp|]. split; [|split].
  - unfold clear. destruct messages as [|m l]; [reflexivity|].
    destruct (str_eqb (role m) (str "system")); reflexivity.
  - reflexivity.
  - unfold loop_iteration. rewrite Hc.
    change (str_eqb (str "clear") (str "exit")) with false.
    change (str_eqb (str "clear") (str "quit")) with false.
    change (str_eqb (str "clear") (str "clear")) with true.
    cbv iota beta. cbn [orb]. cbv iota.
    rewrite (clear_given AGENT_SYSTEM_PROMPT _ prompt_not_empty). reflexivity.
Qed.

Lemma C9_witness :
  clear (Some (str "new"))
    [{| role := str "system"; content := str "old" |};
     {| role := str "assistant"; content := str "assistant> <get-notes/>" |}]
  = [{| role := str "system"; content := str "new" |}]
  /\ loop_iteration
       {| conversation := [{| role := str "user"; content := str "system> x" |}];
          command_processor := [(str "a", str "hi")] |}
       (str "<get-notes/>") (str "Clear")
     = Next {| conversation :=
                 [{| role := str "system"; content := AGENT_SYSTEM_PROMPT |}];
               command_processor := [] |}.
Proof.
  destruct (C9_reset
              [{| role := str "system"; content := str "old" |};
               {| role := str "assistant"; content := str "assistant> <get-notes/>" |}]
              (str "new")
              {| conversation := [{| role := str "user"; content := str "system> x" |}];
                 command_processor := [(str "a", str "hi")] |}
              (str "<get-notes/>") (str "Clear")) as (H1 & _ & _ & H2).
  - discriminate.
  - reflexivity.
  - split; [exact H1 | exact H2].
Defined.

(** The claim as it is written fails on a prompt that is given but
    empty: the system turn of before is kept, and no fresh one is made. *)
Lemma C9_counterexample :
  clear (Some [])
    [{| role := str "system"; content := str "old" |};
     {| role := str "assistant"; content := str "assistant> <get-notes/>" |}]
  = [{| role := str "system"; content := str "old" |}]
  /\ [{| role := str "system"; content := str "old" |}]
     <> [{| role := str "system"; content := [] |}].
Proof. split; [reflexivity | vm_compute; discriminate]. Qed.

Lemma C5_witness :
  process_command [(str "a", str "hi")] (str "<get-notes/> please")
  = ([(str "a", str "hi")], unknown_command).
Proof.
  apply (proj1 (C5_classification [(str "a", str "hi")] (str "<get-notes/> please"))).
  intros [(n & t & _ & _ & E)|[E|(n & _ & E)]]; vm_compute in E; discriminate.
Defined.

(** * Further properties of the code *)

(** ** The interpreter over runs of commands *)

(** X1: white space around the input never matters to the interpreter:
    a call on the trimmed input gives the same store and response. *)
Theorem X1_surrounding_space_ignored (store : notes) (s : pystr) :
  process_command store (strip s) = process_command store s.
Proof. unfold process_command. rewrite strip_idem. reflexivity. Qed.

Lemma process_command_extends (store : notes) (s : pystr) :
  exists l, fst (process_command store s) = store ++ l /\ length l <= 1.
Proof.
  destruct (process_command_step store s) as [E|(n & t & _ & _ & _ & _ & E)];
    rewrite E.
  - exists []. rewrite app_nil_r. auto.
  - exists [(n, t)]. auto.
Qed.

Lemma process_commands_cons (store : notes) (c : pystr) (cmds : list pystr) :
  fst (process_commands store (c :: cmds))
  = fst (process_commands (fst (process_command store c)) cmds).
Proof.
  cbn [process_commands]. destruct (process_command store c) as [store' r].
  cbn [fst]. destruct (process_commands store' cmds). reflexivity.
Qed.

Lemma process_commands_app (store : notes) (a b : list pystr) :
  fst (process_commands store (a ++ b))
  = fst (process_commands (fst (process_commands store a)) b).
Proof.
  revert store; induction a as [|c a IH]; intro store; [reflexivity|].
  rewrite <- app_comm_cons, !process_commands_cons. apply IH.
Qed.

Lemma process_commands_extends (store : notes) (cmds : list pystr) :
  exists l, fst (process_commands store cmds) = store ++ l.
Proof.
  revert store; induction cmds as [|c cmds IH]; intro store.
  - exists []. rewrite app_nil_r. reflexivity.
  - rewrite process_commands_cons.
    destruct (process_command_extends store c) as (l1 & E1 & _).
    destruct (IH (fst (process_command store c))) as (l2 & E2).
    exists (l1 ++ l2). rewrite E2, E1, app_assoc. reflexivity.
Qed.

(** X2: over any run of commands the store only grows at the end: the
    store at the start is kept as it is, with its texts, and there is one
    response for each command. *)
Theorem X2_run_keeps_notes (store : notes) (cmds : list pystr) :
  (exists l, fst (process_commands store cmds) = store ++ l)
  /\ (forall n t, dict_get n store = Some t ->
        dict_get n (fst (process_commands store cmds)) = Some t)
  /\ length (snd (process_commands store cmds)) = length cmds.
Proof.
  split; [apply process_commands_extends|]. split.
  - intros n t G. destruct (process_commands_extends store cmds) as (l & E).
    rewrite E, dict_get_app, G. reflexivity.
  - revert store; induction cmds as [|c cmds IH]; intro store; [reflexivity|].
    cbn [process_commands]. destruct (process_command store c) as [store' r].
    specialize (IH store'). destruct (process_commands store' cmds).
    cbn [snd length] in *. rewrite IH. reflexivity.
Qed.

Lemma keys_app (a b : notes) : dict_keys (a ++ b) = dict_keys a ++ dict_keys b.
Proof. apply map_app. Qed.

Lemma process_command_keys (store : notes) (c n : pystr) :
  In n (dict_keys (fst (process_command store c))) <->
  In n (dict_keys store)
  \/ exists t, valid_name n = true /\ valid_text t = true /\
       strip c = add_note_cmd n t.
Proof.
  destruct (command_cases (strip c))
    as [(n' & t' & Hn & Ht & E)|[E|[(n' & Hn & E)|(H1 & H2 & H3)]]].
  - rewrite (process_command_add store c n' t' Hn Ht E).
    destruct (dict_mem n' store) eqn:M; cbn [fst].
    + split; [auto|]. intros [H|(t & Hn2 & Ht2 & E2)]; [exact H|].
      rewrite E in E2.
      destruct (add_note_cmd_inj n' t' n t Hn Ht Hn2 Ht2 E2) as [-> _].
      apply dict_mem_keys. exact M.
    + rewrite (dict_set_new n' t' store M), keys_app, in_app_iff. cbn. split.
      * intros [H|[<-|[]]]; [auto|]. right. exists t'. auto.
      * intros [H|(t & Hn2 & Ht2 & E2)]; [auto|].
        rewrite E in E2.
        destruct (add_note_cmd_inj n' t' n t Hn Ht Hn2 Ht2 E2) as [-> _]. auto.
  - rewrite (process_command_get_notes store c E). cbn [fst].
    split; [auto|]. intros [H|(t & _ & _ & E2)]; [exact H|].
    rewrite E in E2. symmetry in E2. destruct (add_note_not_get_notes _ _ E2).
  - rewrite (process_command_get_note store c n' Hn E). cbn [fst].
    split; [auto|]. intros [H|(t & _ & _ & E2)]; [exact H|].
    rewrite E in E2. symmetry in E2. destruct (add_note_not_get_note _ _ _ E2).
  - rewrite (process_command_unknown store c H1 H2 H3). cbn [fst].
    split; [auto|]. intros [H|(t & Hn2 & Ht2 & E2)]; [exact H|].
    destruct (H1 n t Hn2 Ht2 E2).
Qed.

(** X3: after any run of commands a name is in the store exactly when
    it was there at the start or some command of the run is, once
    trimmed, a well-formed add-note command for that name. *)
Theorem X3_names_of_a_run (store : notes) (cmds : list pystr) (n : pystr) :
  In n (dict_keys (fst (process_commands store cmds))) <->
  In n (dict_keys store)
  \/ exists c t, In c cmds /\ valid_name n = true /\ valid_text t = true /\
       strip c = add_note_cmd n t.
Proof.
  revert store; induction cmds as [|c cmds IH]; intro store.
  - cbn [process_commands fst]. split; [auto|].
    intros [H|(c & t & [] & _)]. exact H.
  - rewrite process_commands_cons, IH, process_command_keys. split.
    + intros [[H|(t & Hn & Ht & E)]|(c' & t & I & Hn & Ht & E)].
      * auto.
      * right. exists c, t. cbn. auto.
      * right. exists c', t. cbn. auto.
    + intros [H|(c' & t & [<-|I] & Hn & Ht & E)].
      * auto.
      * left. right. exists t. auto.
      * right. exists c', t. auto.
Qed.

Lemma X3_witness :
  In (str "b")
    (dict_keys (fst (process_commands [(str "a", str "hi")]
                       [str "<get-notes/>"; str "  <add-note name=" ++ dq :: str "b"
                          ++ dq :: str " text=" ++ dq :: dq :: str "/> "]))).
Proof.
  apply (proj2 (X3_names_of_a_run [(str "a", str "hi")]
                  [str "<get-notes/>"; str "  <add-note name=" ++ dq :: str "b"
                     ++ dq :: str " text=" ++ dq :: dq :: str "/> "] (str "b"))).
  right. eexists. exists []. split; [right; left; reflexivity|].
  repeat split.
Defined.

(** X4: the first add of a name decides its text for good: when a
    well-formed add of a name not yet stored runs, then after whatever
    commands follow the store still has that text under the name, and a
    get of the name shows it, escaped. *)
Theorem X4_first_add_wins (store : notes) (before after : list pystr)
  (c n t : pystr) :
  valid_name n = true -> valid_text t = true -> strip c = add_note_cmd n t ->
  dict_mem n (fst (process_commands store before)) = false ->
  dict_get n (fst (process_commands store (before ++ c :: after))) = Some t
  /\ snd (process_command (fst (process_commands store (before ++ c :: after)))
            (get_note_cmd n))
     = note_content n (escape t).
Proof.
  intros Hn Ht E M.
  assert (G : dict_get n (fst (process_commands store (before ++ c :: after)))
              = Some t).
  { rewrite process_commands_app, process_commands_cons.
    destruct (process_commands_extends
                (fst (process_command (fst (process_commands store before)) c)) after)
      as (l & El).
    rewrite El, dict_get_app.
    rewrite (process_command_add _ c n t Hn Ht E), M. cbn [fst].
    rewrite (dict_get_set_new n t _ M). reflexivity. }
  split; [exact G|].
  rewrite (process_command_get_note _ _ n Hn (strip_get_note_cmd n)), G.
  reflexivity.
Qed.

Lemma X4_witness :
  dict_get (str "a")
    (fst (process_commands []
            ([str "<get-notes/>"] ++ add_note_cmd (str "a") (str "1")
               :: [add_note_cmd (str "a") (str "2"); add_note_cmd (str "b") (str "3")])))
  = Some (str "1").
Proof.
  apply (X4_first_add_wins [] [str "<get-notes/>"]
           [add_note_cmd (str "a") (str "2"); add_note_cmd (str "b") (str "3")]
           (add_note_cmd (str "a") (str "1")) (str "a") (str "1"));
    vm_compute; reflexivity.
Defined.

(** ** Escaping, further *)

Lemma escape_char_length (c : char) : 1 <= length (escape_char c).
Proof.
  unfold escape_char.
  repeat match goal with |- context [if ?b then _ else _] => destruct b end;
    cbn; lia.
Qed.

Lemma escape_length (t : pystr) : length t <= length (escape t).
Proof.
  rewrite escape_flat_map. induction t as [|c t IH]; [reflexivity|].
  cbn [flat_map]. rewrite length_app. pose proof (escape_char_length c).
  cbn [length]. lia.
Qed.

Lemma escape_cons (c : char) (t : pystr) :
  escape (c :: t) = escape_char c ++ escape t.
Proof. rewrite !escape_flat_map. reflexivity. Qed.

(** X5: escaping leaves a text unchanged exactly when the text has none
    of the five characters. *)
Theorem X5_escape_unchanged_iff_plain (t : pystr) :
  escape t = t <-> plain t = true.
Proof.
  split; [|apply escape_plain].
  induction t as [|c t IH]; [reflexivity|].
  rewrite escape_cons. intro E. cbn [plain forallb].
  destruct (special c) eqn:S.
  - exfalso. unfold special in S. unfold escape_char in E.
    destruct (N.eqb_spec c 38) as [->|H1].
    { cbn in E. injection E as E. apply (f_equal (@length char)) in E.
      cbn [length] in E. pose proof (escape_length t). lia. }
    destruct (N.eqb_spec c 60) as [->|H2]; [discriminate|].
    destruct (N.eqb_spec c 62) as [->|H3]; [discriminate|].
    destruct (N.eqb_spec c 34) as [->|H4]; [discriminate|].
    destruct (N.eqb_spec c 39) as [->|H5]; [discriminate|].
    discriminate.
  - cbn [negb andb]. apply IH.
    unfold special in S. repeat (apply orb_false_iff in S as [S ?]).
    unfold escape_char in E. rewrite S, H, H0, H1, H2 in E.
    injection E as E. exact E.
Qed.

(** X6: escaping works character by character: the escape of a
    concatenation is the concatenation of the escapes; different texts
    have different escapes; and an escaped text has no double quote, so
    it cannot end the attribute of the response early. *)
Theorem X6_escape_composes (a b : pystr) :
  escape (a ++ b) = escape a ++ escape b
  /\ (escape a = escape b -> a = b)
  /\ valid_text (escape a) = true.
Proof.
  split; [|split].
  - rewrite !escape_flat_map. apply flat_map_app.
  - intro E. rewrite <- (unescape_escape a), <- (unescape_escape b), E.
    reflexivity.
  - pose proof (no_raw_special_escape a) as H. revert H.
    generalize (escape a). intro s. induction s as [|c s IH]; [reflexivity|].
    cbn [no_raw_special valid_text forallb]. intro H.
    apply andb_true_iff in H as [Hc Hs]. fold (valid_text s). rewrite (IH Hs).
    unfold not_quote, dq. destruct (N.eqb_spec c 34) as [->|N]; [|reflexivity].
    cbn in Hc. discriminate.
Qed.

(** ** The turn, further *)

Lemma ci_match_a_not_space (c : char) : ci_match 97%N c = true -> isspace c = false.
Proof.
  unfold ci_match. cbn. intro H.
  repeat (apply orb_true_iff in H as [H|H]); try discriminate.
  - apply N.eqb_eq in H. subst c. reflexivity.
  - apply N.eqb_eq in H. assert (c = 65%N) by lia. subst c. reflexivity.
Qed.

(** The marker pattern matches only when the text begins with the
    marker. *)
Lemma re_match_assistant_none (s : pystr) :
  begins_with_marker s = false -> re_match re_assistant s = None.
Proof.
  intro H. apply re_match_none. intros m Hm. unfold re_assistant in Hm.
  apply in_run_seq in Hm as (m1 & m2 & H1 & H2 & _).
  apply in_run_star in H1 as (ws & s1 & -> & Hws & ->). cbn [rest snd] in H2.
  apply in_run_seq in H2 as (m3 & m4 & H3 & _ & _).
  apply in_run_lit_i in H3 as (k & r1 & E1 & _).
  unfold begins_with_marker, starts_with_i, lstrip in H.
  assert (L : drop_while isspace (ws ++ s1) = s1).
  { destruct s1 as [|c0 s1]; [discriminate|].
    apply drop_while_app_stop; [exact Hws|].
    change (str "assistant>") with (97%N :: str "ssistant>") in E1.
    cbn [map match_chars] in E1. destruct (ci_match 97%N c0) eqn:C; [|discriminate].
    apply ci_match_a_not_space. exact C. }
  rewrite L, E1 in H. discriminate.
Qed.

Lemma trimmed_head (s : pystr) :
  trimmed s = true -> match s with [] => True | c :: _ => isspace c = false end.
Proof.
  destruct s as [|c s]; [trivial|]. unfold trimmed. intro H.
  apply andb_true_iff in H as [H _]. apply negb_true_iff in H. exact H.
Qed.

Lemma strip_lstrip (s : pystr) : strip (lstrip s) = strip s.
Proof. unfold strip. rewrite lstrip_idem. reflexivity. Qed.

(** On a trimmed text the substitution of the marker leaves what follows
    the marker, without the white space after it. *)
Lemma re_sub_assistant (s m r : pystr) :
  trimmed s = true ->
  match_chars (map ci_match (str "assistant>")) s = Some (m, r) ->
  re_sub_start re_assistant s = lstrip r.
Proof.
  intros T E. apply re_sub_start_rest. unfold re_assistant.
  rewrite (re_match_seq_single (Star isspace) _ _ ([], [], s))
    by (apply run_star_stop, trimmed_head, T).
  cbn [rest snd].
  rewrite (re_match_seq_single (lit_i (str "assistant>")) _ _ (m, [], r))
    by (unfold lit_i; rewrite run_chars, E; reflexivity).
  cbn [rest snd]. unfold re_match.
  destruct (run_star_head isspace r) as [l Hl]. rewrite Hl. reflexivity.
Qed.

(** X7: the flag for the role marker is set exactly when the output,
    after the removal of a reasoning block, begins with the marker; when it
    does not, the turn is the call of the interpreter on that text, which
    is also the command that is recorded. *)
Theorem X7_marker_flag (interp : notes -> pystr -> notes * pystr)
  (store : notes) (llm_full_output : pystr) :
  llm_included_assistant_prefix (agent_turn_with interp store llm_full_output)
  = begins_with_marker (think_strip llm_full_output)
  /\ (begins_with_marker (think_strip llm_full_output) = false ->
      agent_turn_with interp store llm_full_output
      = {| command_after_think_strip := think_strip llm_full_output;
           llm_included_assistant_prefix := false;
           final_command_candidate := think_strip llm_full_output;
           suggested_system_response :=
             snd (interp store (think_strip llm_full_output));
           store_after := fst (interp store (think_strip llm_full_output)) |}).
Proof.
  destruct (begins_with_marker (think_strip llm_full_output)) eqn:B.
  - rewrite (agent_turn_with_marker interp store _ B). split; [reflexivity|].
    discriminate.
  - unfold agent_turn_with. rewrite (re_match_assistant_none _ B).
    destruct (interp store (think_strip llm_full_output)) as [store' r].
    split; [reflexivity|]. intros _. reflexivity.
Qed.

Lemma X7_witness :
  agent_turn [] (str "<get-notes/>")
  = {| command_after_think_strip := str "<get-notes/>";
       llm_included_assistant_prefix := false;
       final_command_candidate := str "<get-notes/>";
       suggested_system_response := notes_list [];
       store_after := [] |}.
Proof.
  unfold agent_turn.
  destruct (X7_marker_flag process_command [] (str "<get-notes/>")) as [_ H].
  rewrite H; vm_compute; reflexivity.
Defined.

(** X8: when the normalized output is the marker, in any case, followed
    by a text, the command recorded for the turn is that text trimmed. *)
Theorem X8_intended_command (interp : notes -> pystr -> notes * pystr)
  (store : notes) (llm_full_output m r : pystr) :
  match_chars (map ci_match (str "assistant>")) (think_strip llm_full_output)
  = Some (m, r) ->
  think_strip llm_full_output = m ++ r
  /\ final_command_candidate (agent_turn_with interp store llm_full_output)
     = strip r.
Proof.
  intro E. split.
  - revert E. generalize (think_strip llm_full_output).
    generalize (map ci_match (str "assistant>")). intro ps. revert m r.
    induction ps as [|p ps IH]; intros m r s; cbn [match_chars].
    + intro H; inversion H; reflexivity.
    + destruct s as [|c s]; [discriminate|]. destruct (p c); [|discriminate].
      destruct (match_chars ps s) as [[k' r']|] eqn:E'; [|discriminate].
      intro H; inversion H; subst. rewrite (IH _ _ _ E'). reflexivity.
  - assert (B : begins_with_marker (think_strip llm_full_output) = true).
    { unfold begins_with_marker, starts_with_i, lstrip.
      rewrite drop_while_id by (apply trimmed_head, strip_trimmed).
      rewrite E. reflexivity. }
    rewrite (agent_turn_with_marker interp store _ B).
    cbn [final_command_candidate].
    rewrite (re_sub_assistant (think_strip llm_full_output) m r (strip_trimmed _) E).
    apply strip_lstrip.
Qed.

Lemma X8_witness :
  final_command_candidate
    (agent_turn [] (str "ASSISTANT>   <get-notes/> and more  "))
  = str "<get-notes/> and more".
Proof.
  unfold agent_turn.
  destruct (X8_intended_command process_command []
              (str "ASSISTANT>   <get-notes/> and more  ")
              (str "ASSISTANT>") (str "   <get-notes/> and more")) as [_ H].
  - vm_compute. reflexivity.
  - rewrite H. vm_compute. reflexivity.
Defined.

(** X9: a role marker that follows a reasoning block is still caught:
    the block is removed first, and the turn answers with the error for
    the format and leaves the store as it was. *)
Theorem X9_marker_after_block (store : notes) (b c : pystr) :
  contains_i closing_tag b = false ->
  begins_with_marker (strip c) = true ->
  suggested_system_response
    (agent_turn store (opening_tag ++ b ++ closing_tag ++ c)) = invalid_format
  /\ store_after (agent_turn store (opening_tag ++ b ++ closing_tag ++ c)) = store.
Proof.
  intros Hb Hc. unfold agent_turn.
  assert (B : begins_with_marker
                (think_strip (opening_tag ++ b ++ closing_tag ++ c)) = true)
    by (rewrite (think_strip_block b c Hb); exact Hc).
  rewrite (agent_turn_with_marker process_command store _ B).
  split; reflexivity.
Qed.

Lemma X9_witness :
  suggested_system_response
    (agent_turn []
       (opening_tag ++ str "I will add a note" ++ closing_tag
          ++ str " assistant> " ++ add_note_cmd (str "a") (str "b")))
  = invalid_format.
Proof.
  apply (X9_marker_after_block [] (str "I will add a note")
           (str " assistant> " ++ add_note_cmd (str "a") (str "b")));
    vm_compute; reflexivity.
Defined.

(** X10: when the call of the model fails, the text that
    [generate_response] returns goes through the turn as a command that
    is not recognized: it is recorded as it is, the response is the error
    for an unknown or malformed command, and the store is left as it
    was, whatever the text of the exception. *)
Theorem X10_generation_failure (store : notes) (e : pystr) :
  agent_turn store (generate_response (Failed e))
  = {| command_after_think_strip := generate_response (Failed e);
       llm_included_assistant_prefix := false;
       final_command_candidate := generate_response (Failed e);
       suggested_system_response := unknown_command;
       store_after := store |}.
Proof.
  assert (S : strip (generate_response (Failed e)) = generate_response (Failed e)).
  { apply trimmed_strip. unfold generate_response.
    cbn [str map list_ascii_of_string app]. unfold trimmed. find_last.
    reflexivity. }
  assert (T : think_strip (generate_response (Failed e))
              = generate_response (Failed e)).
  { rewrite think_strip_no_block; [exact S|]. rewrite S. reflexivity. }
  unfold agent_turn, agent_turn_with. rewrite T.
  rewrite re_match_assistant_none by reflexivity.
  rewrite process_command_unknown; [reflexivity|..]; rewrite S.
  - intros n t _ _ E. unfold generate_response, add_note_cmd in E. cbn in E.
    discriminate.
  - intro E. unfold generate_response, get_notes_cmd in E. cbn in E.
    discriminate.
  - intros n _ E. unfold generate_response, get_note_cmd in E. cbn in E.
    discriminate.
Qed.

(** ** The loops *)

Lemma agent_turn_final_trimmed (store : notes) (out : pystr) :
  trimmed (final_command_candidate (agent_turn store out)) = true.
Proof.
  unfold agent_turn, agent_turn_with.
  destruct (re_match re_assistant (think_strip out)).
  - apply strip_trimmed.
  - destruct (process_command store (think_strip out)). apply strip_trimmed.
Qed.

Lemma agent_turn_store (store : notes) (out : pystr) :
  store_after (agent_turn store out) = store
  \/ store_after (agent_turn store out)
     = fst (process_command store (think_strip out)).
Proof.
  unfold agent_turn, agent_turn_with.
  destruct (re_match re_assistant (think_strip out)).
  - left. reflexivity.
  - right. destruct (process_command store (think_strip out)). reflexivity.
Qed.

Lemma agent_turn_store_extends (store : notes) (out : pystr) :
  exists l, store_after (agent_turn store out) = store ++ l /\ length l <= 1.
Proof.
  destruct (agent_turn_store store out) as [E|E]; rewrite E.
  - exists []. rewrite app_nil_r. auto.
  - apply process_command_extends.
Qed.

Lemma agent_turn_store_inv (store : notes) (out : pystr) :
  store_inv store -> store_inv (store_after (agent_turn store out)).
Proof.
  intro H. destruct (agent_turn_store store out) as [E|E]; rewrite E.
  - exact H.
  - apply process_command_inv. exact H.
Qed.

Lemma is_keyword_false (typed : pystr) :
  is_keyword typed = false ->
  str_eqb (lower typed) (str "exit") || str_eqb (lower typed) (str "quit") = false
  /\ str_eqb (lower typed) (str "clear") = false.
Proof. unfold is_keyword. intro H. apply orb_false_iff in H. exact H. Qed.

Lemma loop_iteration_other (e : env) (out typed : pystr) :
  is_keyword typed = false ->
  loop_iteration e out typed =
  Next {| conversation :=
            conversation e ++
            [{| role := str "assistant";
                content := str "assistant> " ++
                  final_command_candidate (agent_turn (command_processor e) out) |};
             {| role := str "user";
                content := str "system> " ++
                  (if isnil (strip typed)
                   then suggested_system_response (agent_turn (command_processor e) out)
                   else strip typed) |}];
          command_processor := store_after (agent_turn (command_processor e) out) |}.
Proof.
  intro K. apply is_keyword_false in K as [K1 K2].
  unfold loop_iteration. rewrite K1, K2. unfold add_message.
  rewrite <- app_assoc. reflexivity.
Qed.

Lemma loop_iteration_clear (e : env) (out typed : pystr) :
  str_eqb (lower typed) (str "exit") || str_eqb (lower typed) (str "quit") = false ->
  str_eqb (lower typed) (str "clear") = true ->
  loop_iteration e out typed =
  Next {| conversation := [{| role := str "system"; content := AGENT_SYSTEM_PROMPT |}];
          command_processor := [] |}.
Proof.
  intros K1 K2. unfold loop_iteration. rewrite K1, K2.
  rewrite (clear_given AGENT_SYSTEM_PROMPT _ prompt_not_empty). reflexivity.
Qed.

(** X11: an iteration of the agent loop in which the operator types no
    keyword keeps every earlier turn and adds exactly two, the command of
    the assistant (trimmed) and then the response under the user role;
    the response is the typed line trimmed, or the suggested one when the
    line is blank; the store grows by at most one note and is the store
    after the command, whatever was typed. *)
Theorem X11_iteration_appends (e : env) (llm_full_output typed : pystr) :
  is_keyword typed = false ->
  exists command response l,
    loop_iteration e llm_full_output typed =
    Next {| conversation :=
              conversation e ++
              [{| role := str "assistant"; content := str "assistant> " ++ command |};
               {| role := str "user"; content := str "system> " ++ response |}];
            command_processor := command_processor e ++ l |}
    /\ trimmed command = true
    /\ length l <= 1
    /\ response =
       (if isnil (strip typed)
        then suggested_system_response (agent_turn (command_processor e) llm_full_output)
        else strip typed)
    /\ command_processor e ++ l
       = store_after (agent_turn (command_processor e) llm_full_output).
Proof.
  intro K.
  destruct (agent_turn_store_extends (command_processor e) llm_full_output)
    as (l & El & Hl).
  exists (final_command_candidate (agent_turn (command_processor e) llm_full_output)).
  eexists. exists l. rewrite (loop_iteration_other e llm_full_output typed K), El.
  split; [reflexivity|]. split; [apply agent_turn_final_trimmed|].
  split; [exact Hl|]. split; reflexivity.
Qed.

Lemma X11_witness :
  exists command response l,
    loop_iteration initial_env (str " <get-notes/> ") (str " ok ") =
    Next {| conversation :=
              conversation initial_env ++
              [{| role := str "assistant"; content := str "assistant> " ++ command |};
               {| role := str "user"; content := str "system> " ++ response |}];
            command_processor := command_processor initial_env ++ l |}
    /\ response = str "ok".
Proof.
  destruct (X11_iteration_appends initial_env (str " <get-notes/> ") (str " ok "))
    as (command & response & l & H1 & _ & _ & H2 & _).
  - reflexivity.
  - exists command, response, l. split; [exact H1 | exact H2].
Defined.

Lemma run_agent_cons (e : env) (o : chat_outcome) (typed : pystr)
  (inputs : list (chat_outcome * pystr)) :
  run_agent e ((o, typed) :: inputs) =
  match loop_iteration e (generate_response o) typed with
  | Exit => exit_state e (generate_response o)
  | Next e' => run_agent e' inputs
  end.
Proof. reflexivity. Qed.

Lemma loop_iteration_exit (e : env) (out typed : pystr) :
  str_eqb (lower typed) (str "exit") || str_eqb (lower typed) (str "quit") = true ->
  loop_iteration e out typed = Exit.
Proof. intro K. unfold loop_iteration. rewrite K. reflexivity. Qed.

(** X12: as long as the operator does not type clear, the notes
    persist over the iterations of the agent loop: the store at the start
    is kept, with its texts, whatever the model returns and whatever
    responses are typed over. *)
Theorem X12_notes_persist (e : env) (inputs : list (chat_outcome * pystr)) :
  (forall o typed, In (o, typed) inputs -> lower typed <> str "clear") ->
  (exists l, command_processor (run_agent e inputs) = command_processor e ++ l)
  /\ (forall n t, dict_get n (command_processor e) = Some t ->
        dict_get n (command_processor (run_agent e inputs)) = Some t).
Proof.
  intro H.
  assert (X : exists l, command_processor (run_agent e inputs)
                        = command_processor e ++ l).
  { revert e. induction inputs as [|[o typed] inputs IH]; intro e.
    - exists []. rewrite app_nil_r. reflexivity.
    - rewrite run_agent_cons.
      destruct (str_eqb (lower typed) (str "exit")
                || str_eqb (lower typed) (str "quit")) eqn:K1.
      + rewrite (loop_iteration_exit e _ typed K1).
        destruct (agent_turn_store_extends (command_processor e) (generate_response o))
          as (l1 & E1 & _).
        exists l1. exact E1.
      + assert (K2 : str_eqb (lower typed) (str "clear") = false).
        { apply str_eqb_neq. apply (H o typed). left. reflexivity. }
        assert (K : is_keyword typed = false)
          by (unfold is_keyword; rewrite K1, K2; reflexivity).
        rewrite (loop_iteration_other e _ typed K).
        destruct (agent_turn_store_extends (command_processor e) (generate_response o))
          as (l1 & E1 & _).
        destruct (IH (fun o' t' I => H o' t' (or_intror I))
                    {| conversation :=
                         conversation e ++
                         [{| role := str "assistant";
                             content := str "assistant> " ++
                               final_command_candidate
                                 (agent_turn (command_processor e) (generate_response o)) |};
                          {| role := str "user";
                             content := str "system> " ++
                               (if isnil (strip typed)
                                then suggested_system_response
                                       (agent_turn (command_processor e) (generate_response o))
                                else strip typed) |}];
                       command_processor :=
                         store_after (agent_turn (command_processor e) (generate_response o)) |})
          as (l2 & E2).
        cbn [command_processor] in E2. exists (l1 ++ l2).
        rewrite E2, E1, app_assoc. reflexivity. }
  split; [exact X|]. intros n t G. destruct X as (l & E).
  rewrite E, dict_get_app, G. reflexivity.
Qed.

Lemma X12_witness :
  dict_get (str "a")
    (command_processor
       (run_agent {| conversation := []; command_processor := [(str "a", str "hi")] |}
          [(Replied (add_note_cmd (str "a") (str "bye")), str "override");
           (Failed (str "timeout"), [])]))
  = Some (str "hi").
Proof.
  destruct (X12_notes_persist
              {| conversation := []; command_processor := [(str "a", str "hi")] |}
              [(Replied (add_note_cmd (str "a") (str "bye")), str "override");
               (Failed (str "timeout"), [])]) as [_ H].
  - intros o typed [H|[H|[]]]; inversion H; subst; vm_compute; discriminate.
  - apply H. reflexivity.
Defined.

Lemma clear_cases (p : option pystr) (messages : list message) :
  clear p messages = []
  \/ exists x, clear p messages = [x] /\ role x = str "system".
Proof.
  unfold clear. destruct p as [[|c p]|].
  - destruct messages as [|m l]; [left; reflexivity|].
    destruct (str_eqb (role m) (str "system")) eqn:E; [|left; reflexivity].
    right. exists m. apply str_eqb_eq in E. auto.
  - right. eexists. split; reflexivity.
  - destruct messages as [|m l]; [left; reflexivity|].
    destruct (str_eqb (role m) (str "system")) eqn:E; [|left; reflexivity].
    right. exists m. apply str_eqb_eq in E. auto.
Qed.

(** X13: after [Conversation.clear] the log has at most one turn, which
    is a system turn, and a second clear without a prompt changes
    nothing. *)
Theorem X13_clear_shape (p : option pystr) (messages : list message) :
  length (clear p messages) <= 1
  /\ Forall (fun m => role m = str "system") (clear p messages)
  /\ clear None (clear p messages) = clear p messages.
Proof.
  destruct (clear_cases p messages) as [E|(x & E & R)]; rewrite E.
  - repeat split; [cbn; lia | constructor].
  - repeat split; [cbn; lia | repeat constructor; exact R |].
    unfold clear. rewrite R, str_eqb_refl. reflexivity.
Qed.

Lemma chat_iteration_spoken (messages : list message) (user_input : pystr)
  (o : chat_outcome) :
  Forall spoken messages ->
  match chat_iteration messages user_input o with
  | ChatExit => True
  | ChatNext messages' => Forall spoken messages'
  end.
Proof.
  intro H. unfold chat_iteration.
  destruct (str_eqb (lower user_input) (str "exit")
            || str_eqb (lower user_input) (str "quit")); [exact I|].
  destruct (str_eqb (lower user_input) (str "clear")).
  - unfold clear. destruct messages as [|m l]; [constructor|].
    destruct (str_eqb (role m) (str "system")); [|constructor].
    inversion H; subst. constructor; [assumption | constructor].
  - unfold add_message. rewrite !Forall_app. split; [split|].
    + exact H.
    + constructor; [left; reflexivity | constructor].
    + constructor; [right; reflexivity | constructor].
Qed.

Lemma run_chat_spoken (messages : list message)
  (inputs : list (pystr * chat_outcome)) :
  Forall spoken messages -> Forall spoken (run_chat messages inputs).
Proof.
  revert messages; induction inputs as [|[u o] inputs IH]; intros messages H;
    [exact H|].
  cbn [run_chat]. pose proof (chat_iteration_spoken messages u o H) as S.
  destruct (chat_iteration messages u o); [exact H | apply IH, S].
Qed.

(** X14: in the plain chat the log only ever has turns of the user and
    of the assistant, so typing clear there always leaves the log
    empty. *)
Theorem X14_chat_clear_empties (inputs : list (pystr * chat_outcome))
  (user_input : pystr) (o : chat_outcome) :
  lower user_input = str "clear" ->
  Forall (fun m => role m = str "user" \/ role m = str "assistant")
    (run_chat (Conversation None) inputs)
  /\ chat_iteration (run_chat (Conversation None) inputs) user_input o = ChatNext [].
Proof.
  intro K.
  pose proof (run_chat_spoken (Conversation None) inputs (Forall_nil _)) as S.
  split; [exact S|]. unfold chat_iteration. rewrite K.
  change (str_eqb (str "clear") (str "exit")) with false.
  change (str_eqb (str "clear") (str "quit")) with false.
  change (str_eqb (str "clear") (str "clear")) with true.
  cbn [orb]. cbv iota. unfold clear.
  destruct (run_chat (Conversation None) inputs) as [|m l]; [reflexivity|].
  inversion S as [|? ? [R|R] _]; subst; rewrite R; reflexivity.
Qed.

Lemma X14_witness :
  chat_iteration
    (run_chat (Conversation None)
       [(str "hello", Replied (str "hi")); (str "system", Failed (str "down"))])
    (str "CLEAR") (Replied [])
  = ChatNext [].
Proof.
  apply (X14_chat_clear_empties
           [(str "hello", Replied (str "hi")); (str "system", Failed (str "down"))]
           (str "CLEAR") (Replied [])).
  reflexivity.
Defined.

Lemma loop_iteration_inv (e : env) (out typed : pystr) :
  agent_inv e ->
  match loop_iteration e out typed with
  | Exit => True
  | Next e' => agent_inv e'
  end.
Proof.
  intros [(rest & Ec & Hr) Hs].
  destruct (str_eqb (lower typed) (str "exit")
            || str_eqb (lower typed) (str "quit")) eqn:K1.
  { rewrite (loop_iteration_exit e out typed K1). exact I. }
  destruct (str_eqb (lower typed) (str "clear")) eqn:K2.
  { rewrite (loop_iteration_clear e out typed K1 K2). split.
    - exists []. split; [reflexivity | constructor].
    - apply store_inv_nil. }
  assert (K : is_keyword typed = false)
    by (unfold is_keyword; rewrite K1, K2; reflexivity).
  rewrite (loop_iteration_other e out typed K). split.
  - cbn [conversation]. rewrite Ec. eexists. split; [reflexivity|].
    apply Forall_app. split; [exact Hr|].
    constructor; [left; reflexivity|].
    constructor; [right; reflexivity | constructor].
  - cbn [command_processor]. apply agent_turn_store_inv. exact Hs.
Qed.

Lemma exit_state_inv (e : env) (out : pystr) :
  agent_inv e -> agent_inv (exit_state e out).
Proof.
  intros [(rest & Ec & Hr) Hs]. unfold exit_state. split.
  - cbn [conversation]. unfold add_message. rewrite Ec. eexists.
    split; [reflexivity|]. apply Forall_app. split; [exact Hr|].
    constructor; [left; reflexivity | constructor].
  - cbn [command_processor]. apply agent_turn_store_inv. exact Hs.
Qed.

(** X15: whatever the model returns and the operator types, the log of
    the agent loop starts with the system prompt, no other turn is a
    system turn, and the store keeps its invariant. *)
Theorem X15_agent_loop_invariant (inputs : list (chat_outcome * pystr)) :
  (exists rest,
     conversation (run_agent initial_env inputs)
     = {| role := str "system"; content := AGENT_SYSTEM_PROMPT |} :: rest
     /\ Forall (fun m => role m = str "assistant" \/ role m = str "user") rest)
  /\ store_inv (command_processor (run_agent initial_env inputs)).
Proof.
  assert (G : forall e, agent_inv e -> agent_inv (run_agent e inputs)).
  { induction inputs as [|[o typed] inputs IH]; intros e H; [exact H|].
    rewrite run_agent_cons.
    pose proof (loop_iteration_inv e (generate_response o) typed H) as S.
    destruct (loop_iteration e (generate_response o) typed);
      [apply exit_state_inv; exact H|].
    apply IH, S. }
  apply G. split.
  - exists []. split; [|constructor]. unfold initial_env, Conversation.
    cbn [conversation]. destruct AGENT_SYSTEM_PROMPT eqn:E; [|reflexivity].
    destruct (prompt_not_empty E).
  - apply store_inv_nil.
Qed.

(** ** Reasoning blocks with tags in any case *)

Lemma closing_tag_not_astride_any (b2 r2 k r : pystr) :
  match_chars (map ci_match closing_tag) r2 = Some (k, r) ->
  b2 <> [] -> starts_with_i closing_tag b2 = false ->
  match_chars (map ci_match closing_tag) (b2 ++ r2) = None.
Proof.
  unfold starts_with_i.
  change closing_tag with [60; 47; 116; 104; 105; 110; 107; 62]%N.
  intros M N H.
  destruct r2 as [|d r2]; [discriminate|].
  assert (D : d = 60%N).
  { cbn [map match_chars] in M. destruct (ci_match 60%N d) eqn:C; [|discriminate].
    apply ci_match_lt. exact C. }
  subst d. clear M.
  destruct b2 as [|c1 [|c2 [|c3 [|c4 [|c5 [|c6 [|c7 [|c8 b2]]]]]]]];
    [contradiction|..]; cbn [map match_chars app] in *.
  all: try (destruct (ci_match 60%N c1) eqn:?; [|reflexivity]).
  all: try (destruct (ci_match 47%N c2) eqn:?; [|reflexivity]).
  all: try (destruct (ci_match 116%N c3) eqn:?; [|reflexivity]).
  all: try (destruct (ci_match 104%N c4) eqn:?; [|reflexivity]).
  all: try (destruct (ci_match 105%N c5) eqn:?; [|reflexivity]).
  all: try (destruct (ci_match 110%N c6) eqn:?; [|reflexivity]).
  all: try (destruct (ci_match 107%N c7) eqn:?; [|reflexivity]).
  all: try (destruct (ci_match 62%N c8) eqn:?; [|reflexivity]).
  all: try reflexivity.
  discriminate.
Qed.

(** X16: a reasoning block is removed with its tags in any letter case:
    when the trimmed output is an opening tag, a body without closing tag,
    a closing tag and a remainder, the normalized output is the remainder
    trimmed, even when the remainder begins with another block. *)
Theorem X16_block_any_case (llm_full_output o body r2 cl after : pystr) :
  match_chars (map ci_match opening_tag) (strip llm_full_output)
  = Some (o, body ++ r2) ->
  match_chars (map ci_match closing_tag) r2 = Some (cl, after) ->
  contains_i closing_tag body = false ->
  think_strip llm_full_output = strip after.
Proof.
  intros Mo Mc Hb. unfold think_strip.
  assert (E : re_sub_start re_think (strip llm_full_output) = lstrip after).
  { apply re_sub_start_rest. unfold re_think.
    rewrite (re_match_seq_single (Star isspace) _ _ ([], [], strip llm_full_output))
      by (apply run_star_stop, trimmed_head, strip_trimmed).
    cbn [rest snd].
    rewrite (re_match_seq_single (lit_i (str "<think>")) _ _ (o, [], body ++ r2))
      by (unfold lit_i; rewrite run_chars; fold opening_tag; rewrite Mo; reflexivity).
    cbn [rest snd].
    destruct (run_star_head isspace after) as [l Hl].
    assert (HR : run (Seq (lit_i (str "</think>")) (Star isspace)) r2
                 = (cl ++ take_while isspace after, [] ++ [], drop_while isspace after)
                   :: map (fun m2 => (consumed (cl, @nil pystr, after) ++ consumed m2,
                                      groups (cl, @nil pystr, after) ++ groups m2,
                                      rest m2)) l).
    { rewrite (run_seq_single (lit_i (str "</think>")) _ _ (cl, [], after))
        by (unfold lit_i; rewrite run_chars; fold closing_tag; rewrite Mc; reflexivity).
      cbn [rest snd]. rewrite Hl. reflexivity. }
    pose proof (fun Hyp => re_match_lazy _ body _ _ _ Hyp HR) as K.
    rewrite K; [reflexivity|].
    intros b1 b2 Eb N. apply run_seq_none. unfold lit_i. rewrite run_chars.
    fold closing_tag.
    rewrite (closing_tag_not_astride_any b2 r2 cl after Mc N); [reflexivity|].
    apply (contains_i_suffix closing_tag b1 b2). rewrite <- Eb. exact Hb. }
  rewrite E. apply strip_lstrip.
Qed.

Lemma X16_witness :
  think_strip (str "  <THINK>first</Think><think>second</think><get-notes/>")
  = str "<think>second</think><get-notes/>".
Proof.
  apply (X16_block_any_case
           (str "  <THINK>first</Think><think>second</think><get-notes/>")
           (str "<THINK>") (str "first")
           (str "</Think><think>second</think><get-notes/>")
           (str "</Think>") (str "<think>second</think><get-notes/>"));
    vm_compute; reflexivity.
Defined.

(** ** Responses are not commands *)

Lemma strip_note_added (n : pystr) : strip (note_added n) = note_added n.
Proof.
  apply trimmed_strip. unfold note_added. cbn [str map list_ascii_of_string app].
  unfold trimmed. find_last. reflexivity.
Qed.

Lemma strip_error_response (reason : pystr) :
  strip (error_response reason) = error_response reason.
Proof.
  apply trimmed_strip. unfold error_response. cbn [str map list_ascii_of_string app].
  unfold trimmed. find_last. reflexivity.
Qed.

Lemma strip_notes_list (names : pystr) : strip (notes_list names) = notes_list names.
Proof.
  apply trimmed_strip. unfold notes_list. cbn [str map list_ascii_of_string app].
  unfold trimmed. find_last. reflexivity.
Qed.

Lemma strip_note_content (n t : pystr) : strip (note_content n t) = note_content n t.
Proof.
  apply trimmed_strip. unfold note_content. cbn [str map list_ascii_of_string app].
  unfold trimmed. find_last. reflexivity.
Qed.

(** The response of a call, by form. *)
Lemma response_cases (store : notes) (s : pystr) :
  (exists n, snd (process_command store s) = note_added n)
  \/ (exists reason, snd (process_command store s) = error_response reason)
  \/ (exists names, snd (process_command store s) = notes_list names)
  \/ (exists n t, snd (process_command store s) = note_content n t).
Proof.
  destruct (command_cases (strip s))
    as [(n & t & Hn & Ht & E)|[E|[(n & Hn & E)|(H1 & H2 & H3)]]].
  - rewrite (process_command_add store s n t Hn Ht E).
    destruct (dict_mem n store); cbn [snd].
    + right; left. eexists. reflexivity.
    + left. eexists. reflexivity.
  - rewrite (process_command_get_notes store s E). right; right; left.
    eexists. reflexivity.
  - rewrite (process_command_get_note store s n Hn E).
    destruct (dict_get n store); cbn [snd].
    + right; right; right. eexists. eexists. reflexivity.
    + right; left. eexists. reflexivity.
  - rewrite (process_command_unknown store s H1 H2 H3). right; left.
    eexists. reflexivity.
Qed.

(** X17: no response of the interpreter is itself a command: every
    response is already trimmed, and the interpreter answers it with the
    error for an unknown or malformed command and leaves the store as it
    was. *)
Theorem X17_response_is_no_command (store store' : notes) (s : pystr) :
  snd (process_command store s) = strip (snd (process_command store s))
  /\ process_command store' (snd (process_command store s))
     = (store', unknown_command).
Proof.
  destruct (response_cases store s) as [(n & E)|[(x & E)|[(x & E)|(n & t & E)]]];
    rewrite E.
  - split; [symmetry; apply strip_note_added|].
    apply process_command_unknown; rewrite strip_note_added.
    + intros n' t' _ _ H. unfold note_added, add_note_cmd in H. cbn in H. discriminate.
    + intro H. unfold note_added, get_notes_cmd in H. cbn in H. discriminate.
    + intros n' _ H. unfold note_added, get_note_cmd in H. cbn in H. discriminate.
  - split; [symmetry; apply strip_error_response|].
    apply process_command_unknown; rewrite strip_error_response.
    + intros n' t' _ _ H. unfold error_response, add_note_cmd in H. cbn in H.
      discriminate.
    + intro H. unfold error_response, get_notes_cmd in H. cbn in H. discriminate.
    + intros n' _ H. unfold error_response, get_note_cmd in H. cbn in H. discriminate.
  - split; [symmetry; apply strip_notes_list|].
    apply process_command_unknown; rewrite strip_notes_list.
    + intros n' t' _ _ H. unfold notes_list, add_note_cmd in H. cbn in H. discriminate.
    + intro H. unfold notes_list, get_notes_cmd in H. cbn in H. discriminate.
    + intros n' _ H. unfold notes_list, get_note_cmd in H. cbn in H. discriminate.
  - split; [symmetry; apply strip_note_content|].
    apply process_command_unknown; rewrite strip_note_content.
    + intros n' t' _ _ H. unfold note_content, add_note_cmd in H. cbn in H.
      discriminate.
    + intro H. unfold note_content, get_notes_cmd in H. cbn in H. discriminate.
    + intros n' _ H. unfold note_content, get_note_cmd in H. cbn in H. discriminate.
Qed.

Lemma X2_witness :
  dict_get (str "a")
    (fst (process_commands [(str "a", str "hi")]
            [add_note_cmd (str "a") (str "bye"); str "nonsense";
             add_note_cmd (str "b") (str "x")]))
  = Some (str "hi").
Proof.
  apply (proj1 (proj2 (X2_run_keeps_notes [(str "a", str "hi")]
                         [add_note_cmd (str "a") (str "bye"); str "nonsense";
                          add_note_cmd (str "b") (str "x")]))).
  reflexivity.
Defined.

Lemma X5_witness : escape (str "plain text, no markup") = str "plain text, no markup".
Proof.
  apply (proj2 (X5_escape_unchanged_iff_plain (str "plain text, no markup"))).
  reflexivity.
Defined.

Lemma X6_witness :
  escape (str "a<" ++ str "&b") = str "a&lt;" ++ str "&amp;b".
Proof. exact (proj1 (X6_escape_composes (str "a<") (str "&b"))). Defined.
